(** * Provincial dashboard (MapaWeb/app.js): a shallow embedding

    The dashboard is the class [MapaProvincias].  Its methods are embedded
    below, method by method and under their own names:

    - JSON numbers are rationals ([Q]); the code only compares and
      subtracts them, and on the numbers a JSON document can hold the sign
      of [b - a] is the order of [a] and [b];
    - a JSON object is its list of [key, value] pairs in the order
      [Object.entries] enumerates them;
    - [Array.prototype.sort] is the stable sort of ECMAScript;
    - [this], the page's two containers, the console, the network and the
      Chart.js instances form one explicit state, threaded through a small
      state-and-exception monad ([try]/[catch] keeps the effects made before
      the throw). *)

From Stdlib Require Import List String Bool Arith ZArith QArith Lia Lqa.
From Stdlib Require Import Sorting.Permutation Sorting.Sorted.
From Stdlib Require Import Structures.OrdersEx.
From Stdlib Require Import DecimalString.
Import ListNotations.

Local Open Scope string_scope.
Local Open Scope Q_scope.

(** ** JavaScript values the dashboard uses *)

Module Js.

(** [a > b] on numbers. *)
Definition gt (a b : Q) : bool := negb (Qle_bool a b).

(** An object: its own enumerable properties, in enumeration order. *)
Definition object (V : Type) : Type := list (string * V).

Definition entries {V : Type} (o : object V) : list (string * V) := o.

Definition keys {V : Type} (o : object V) : list string := List.map fst o.

(** Property read [o[k]]: [None] stands for [undefined]. *)
Fixpoint get {V : Type} (o : object V) (k : string) : option V :=
  match o with
  | [] => None
  | (k', v) :: o' => if String.eqb k k' then Some v else get o' k
  end.

(** Truthiness of a string-or-null value: [null] and the empty string are
    falsy. *)
Definition truthy (v : option string) : bool :=
  match v with
  | None => false
  | Some s => negb (String.eqb s "")
  end.

(** [v || d] where [v] is a string or [null] and [d] a string. *)
Definition or_else (v : option string) (d : string) : string :=
  match v with
  | Some s => if truthy v then s else d
  | None => d
  end.

(** *** [Array.prototype.sort(comparefn)]

    The sort is stable, and [comparefn(a, b) > 0] asks for [b] before [a].
    With a consistent comparator the result is fixed by the language
    standard whatever algorithm the engine runs; it is computed here by
    insertion from the right end, which keeps equal elements in their
    original order. *)
Section Sort.
Context {A : Type} (comparefn : A -> A -> Q).

Fixpoint insert (x : A) (l : list A) : list A :=
  match l with
  | [] => [x]
  | y :: l' => if gt (comparefn x y) 0 then y :: insert x l' else x :: y :: l'
  end.

Fixpoint sort (l : list A) : list A :=
  match l with
  | [] => []
  | x :: l' => insert x (sort l')
  end.
End Sort.

(** A comparator is consistent when "not after" is a total preorder. *)
Definition consistent {A : Type} (comparefn : A -> A -> Q) : Prop :=
  (forall a b, 0 < comparefn a b -> comparefn b a <= 0) /\
  (forall a b c, comparefn a b <= 0 -> comparefn b c <= 0 -> comparefn a c <= 0).

End Js.

(** ** The loaded documents *)

(** One class of a province: [{area_km2, porcentaje, color}]. *)
Record ClaseDatos : Type := mkClaseDatos {
  area_km2 : Q;
  porcentaje : Q;
  color : string
}.

(** [feature.properties] and the point geometry of a province. *)
Record Feature : Type := mkFeature {
  provincia : string;
  area_total_km2 : Q;
  total_pixels : Q;
  feat_clasificaciones : Js.object ClaseDatos;
  latlng : Q * Q
}.

(** One class of the catalog: [{nombre, color}]. *)
Record Clase : Type := mkClase {
  nombre : string;
  clase_color : string
}.

(** One entry of the maxima document: [{provincia, porcentaje, color}]. *)
Record Maximo : Type := mkMaximo {
  max_provincia : string;
  max_porcentaje : Q;
  max_color : string
}.

Definition FeatureCollection : Type := list Feature.
Definition Catalogo : Type := Js.object Clase.
Definition MaximosData : Type := Js.object Maximo.

(** The primary document; a field that is absent reads as [undefined],
    here [None]. *)
Record Data : Type := mkData {
  data_provincias : option FeatureCollection;
  data_clasificaciones : option Catalogo
}.

(** ** The dominant-class scans of [agregarMarcadoresProvincias] *)

(** The loop of [pointToLayer]: the state is
    [(claseDominante, maxPorcentaje)], and [claseDominante] holds a color. *)
Definition scan_color (clasificaciones : Js.object ClaseDatos)
  : option string * Q :=
  fold_left
    (fun (st : option string * Q) (e : string * ClaseDatos) =>
       let '(claseDominante, maxPorcentaje) := st in
       let '(_, datos) := e in
       if Js.gt (porcentaje datos) maxPorcentaje
       then (Some (color datos), porcentaje datos)
       else (claseDominante, maxPorcentaje))
    (Js.entries clasificaciones) (None, 0).

(** The loop of [onEachFeature]: the same scan, keeping the class name. *)
Definition scan_nombre (clasificaciones : Js.object ClaseDatos)
  : option string * Q :=
  fold_left
    (fun (st : option string * Q) (e : string * ClaseDatos) =>
       let '(claseDominante, maxPorcentaje) := st in
       let '(nombre, datos) := e in
       if Js.gt (porcentaje datos) maxPorcentaje
       then (Some nombre, porcentaje datos)
       else (claseDominante, maxPorcentaje))
    (Js.entries clasificaciones) (None, 0).

(** Options handed to [L.circleMarker]. *)
Record CircleMarker : Type := mkCircleMarker {
  marker_latlng : Q * Q;
  radius : Q;
  fillColor : string;
  stroke_color : string;
  weight : Q;
  opacity : Q;
  fillOpacity : Q
}.

Definition fallback_color : string := "#3388ff".

Definition pointToLayer (feature : Feature) : CircleMarker :=
  let clasificaciones := feat_clasificaciones feature in
  let claseDominante := fst (scan_color clasificaciones) in
  {| marker_latlng := latlng feature;
     radius := 12;
     fillColor := Js.or_else claseDominante fallback_color;
     stroke_color := "#fff";
     weight := 3;
     opacity := 1;
     fillOpacity := 8 # 10 |}.

(** What the template of the popup is given, field by field; the template
    prints the area and the pixels through [toLocaleString] and
    [popup_maxPorcentaje] through [toFixed(1)], so the popup shows that
    number rounded to one decimal. *)
Record Popup : Type := mkPopup {
  popup_title : string;
  popup_area : Q;
  popup_pixels : Q;
  popup_claseDominante : option string;
  popup_maxPorcentaje : Q
}.

(** A marker with its popup and the arguments its [popupopen] handler
    passes to [crearGraficoEnPopup]. *)
Record ProvinciaLayer : Type := mkProvinciaLayer {
  layer_marker : CircleMarker;
  layer_popup : Popup;
  layer_on_popupopen : string * Js.object ClaseDatos
}.

Definition onEachFeature (feature : Feature) (layer : CircleMarker)
  : ProvinciaLayer :=
  let clasificaciones := feat_clasificaciones feature in
  let '(claseDominante, maxPorcentaje) := scan_nombre clasificaciones in
  {| layer_marker := layer;
     layer_popup :=
       {| popup_title := provincia feature;
          popup_area := area_total_km2 feature;
          popup_pixels := total_pixels feature;
          popup_claseDominante := claseDominante;
          popup_maxPorcentaje := maxPorcentaje |};
     layer_on_popupopen := (provincia feature, clasificaciones) |}.

(** [L.geoJSON(datos, {pointToLayer, onEachFeature})]: one layer per
    feature. *)
Definition geoJSON (datos : FeatureCollection) : list ProvinciaLayer :=
  List.map (fun feature => onEachFeature feature (pointToLayer feature)) datos.

(** ** The state of the page *)

(** Rows appended to the two containers of the page. *)
Record MaximoItem : Type := mkMaximoItem {
  item_borderLeftColor : string;
  item_swatch : string;
  item_clase : string;
  item_provincia : string;
  item_porcentaje : Q
}.

Record LegendItem : Type := mkLegendItem {
  legend_swatch : string;
  legend_label : string
}.

(** A Leaflet map and what has been added to it. *)
Inductive Layer : Type :=
| TileLayer (url : string)
| GeoJSONLayer (layers : list ProvinciaLayer).

Record LeafletMap : Type := mkLeafletMap {
  view_center : Q * Q;
  view_zoom : Q;
  map_layers : list Layer
}.

(** A canvas element, named by its id. *)
Definition Canvas : Type := string.

(** A projected class, as built by [crearGraficoEnPopup]. *)
Record Bar : Type := mkBar {
  bar_nombre : string;
  bar_area : Q;
  bar_porcentaje : Q;
  bar_color : string
}.

(** The configuration handed to [new Chart]; [cfg_datos] is the array the
    tooltip callback closes over. *)
Record ChartConfig : Type := mkChartConfig {
  cfg_canvas : Canvas;
  cfg_type : string;
  cfg_labels : list string;
  cfg_data : list Q;
  cfg_backgroundColor : list string;
  cfg_borderColor : list string;
  cfg_title : string;
  cfg_datos : list Bar
}.

(** The percentage the [afterLabel] callback prints (with one decimal)
    for the bar at [dataIndex]. *)
Definition afterLabel (cfg : ChartConfig) (dataIndex : nat) : option Q :=
  option_map bar_porcentaje (nth_error (cfg_datos cfg) dataIndex).

(** What Chart.js has been asked to do, oldest first. *)
Inductive ChartEvent : Type :=
| ChartNew (id : nat) (cfg : ChartConfig)
| ChartDestroy (id : nat).

Inductive Error : Type :=
| NetworkError
| SyntaxError
| TypeError.

Inductive ConsoleEntry : Type :=
| ConsoleLog (msg : string)
| ConsoleError (msg : string) (error : option Error).

Inductive NetEvent : Type :=
| FetchIssued (url : string)
| FetchFulfilled (url : string)
| FetchRejected (url : string)
| BodyParsed (url : string)
| BodyRejected (url : string).

(** The five fields of [this], then the page: its two containers, the
    console, the network traffic and the Chart.js calls, oldest first. *)
Record State : Type := mkState {
  map : option LeafletMap;
  datosProvincias : option FeatureCollection;
  clasificaciones : option Catalogo;
  provinciasLayer : option (list ProvinciaLayer);
  chart : option nat;
  maximosItems : list MaximoItem;
  legendItems : list LegendItem;
  console : list ConsoleEntry;
  network : list NetEvent;
  chartjs : list ChartEvent
}.

Definition set_map v (s : State) : State :=
  mkState v (datosProvincias s) (clasificaciones s) (provinciasLayer s)
    (chart s) (maximosItems s) (legendItems s) (console s) (network s)
    (chartjs s).
Definition set_datosProvincias v (s : State) : State :=
  mkState (map s) v (clasificaciones s) (provinciasLayer s)
    (chart s) (maximosItems s) (legendItems s) (console s) (network s)
    (chartjs s).
Definition set_clasificaciones v (s : State) : State :=
  mkState (map s) (datosProvincias s) v (provinciasLayer s)
    (chart s) (maximosItems s) (legendItems s) (console s) (network s)
    (chartjs s).
Definition set_provinciasLayer v (s : State) : State :=
  mkState (map s) (datosProvincias s) (clasificaciones s) v
    (chart s) (maximosItems s) (legendItems s) (console s) (network s)
    (chartjs s).
Definition set_chart v (s : State) : State :=
  mkState (map s) (datosProvincias s) (clasificaciones s) (provinciasLayer s)
    v (maximosItems s) (legendItems s) (console s) (network s)
    (chartjs s).
Definition set_maximosItems v (s : State) : State :=
  mkState (map s) (datosProvincias s) (clasificaciones s) (provinciasLayer s)
    (chart s) v (legendItems s) (console s) (network s)
    (chartjs s).
Definition set_legendItems v (s : State) : State :=
  mkState (map s) (datosProvincias s) (clasificaciones s) (provinciasLayer s)
    (chart s) (maximosItems s) v (console s) (network s)
    (chartjs s).
Definition set_console v (s : State) : State :=
  mkState (map s) (datosProvincias s) (clasificaciones s) (provinciasLayer s)
    (chart s) (maximosItems s) (legendItems s) v (network s)
    (chartjs s).
Definition set_network v (s : State) : State :=
  mkState (map s) (datosProvincias s) (clasificaciones s) (provinciasLayer s)
    (chart s) (maximosItems s) (legendItems s) (console s) v
    (chartjs s).
Definition set_chartjs v (s : State) : State :=
  mkState (map s) (datosProvincias s) (clasificaciones s) (provinciasLayer s)
    (chart s) (maximosItems s) (legendItems s) (console s) (network s)
    v.

(** The constructor's assignments, on a page [page] of which only the
    containers, console and logs matter. *)
Definition constructor_fields (page : State) : State :=
  set_chart None
    (set_provinciasLayer None
       (set_clasificaciones None
          (set_datosProvincias None (set_map None page)))).

(** ** Statements, [throw] and [try]/[catch] *)

Inductive Outcome (A : Type) : Type :=
| Returned (a : A)
| Thrown (e : Error).
Arguments Returned {A} a.
Arguments Thrown {A} e.

Definition M (A : Type) : Type := State -> Outcome A * State.

Definition ret {A : Type} (a : A) : M A := fun s => (Returned a, s).

Definition bind {A B : Type} (m : M A) (k : A -> M B) : M B :=
  fun s =>
    match m s with
    | (Returned a, s') => k a s'
    | (Thrown e, s') => (Thrown e, s')
    end.

Definition throw {A : Type} (e : Error) : M A := fun s => (Thrown e, s).

Definition try_catch {A : Type} (body : M A) (handler : Error -> M A) : M A :=
  fun s =>
    match body s with
    | (Returned a, s') => (Returned a, s')
    | (Thrown e, s') => handler e s'
    end.

Definition gets {A : Type} (f : State -> A) : M A := fun s => (Returned (f s), s).

Definition modify (f : State -> State) : M unit := fun s => (Returned tt, f s).

Declare Scope js_scope.
Delimit Scope js_scope with js.
Notation "x <- m ;; k" := (bind m (fun x => k))
  (at level 61, m at next level, right associativity) : js_scope.
Notation "m ;; k" := (bind m (fun _ => k))
  (at level 61, right associativity) : js_scope.
Local Open Scope js_scope.

(** [array.forEach(f)]. *)
Fixpoint forEach {A : Type} (l : list A) (f : A -> M unit) : M unit :=
  match l with
  | [] => ret tt
  | x :: l' => f x ;; forEach l' f
  end.

Definition console_log (msg : string) : M unit :=
  modify (fun s => set_console (console s ++ [ConsoleLog msg]) s).

Definition console_error (msg : string) (error : option Error) : M unit :=
  modify (fun s => set_console (console s ++ [ConsoleError msg error]) s).

Definition net_event (e : NetEvent) : M unit :=
  modify (fun s => set_network (network s ++ [e]) s).

(** ** The network *)

(** How a request ends: the promise of [fetch] rejects, or it fulfils with
    a response whose body is a JSON text of the expected shape ([Some]) or
    is not JSON at all ([None]).  A body that is JSON of another shape (the
    text [null], a feature without [clasificaciones]) is not in this type:
    on such a body the code throws a [TypeError]; the methods are embedded
    on values of any shape in [Store] below. *)
Inductive Served (A : Type) : Type :=
| Rejects
| Fulfils (body : option A).
Arguments Rejects {A}.
Arguments Fulfils {A} body.

Record Network : Type := mkNetwork {
  datos_visualizacion_real : Served Data;
  maximos_por_clasificacion : Served MaximosData
}.

Record Response (A : Type) : Type := mkResponse {
  response_url : string;
  response_body : option A
}.
Arguments mkResponse {A}.
Arguments response_url {A}.
Arguments response_body {A}.

Definition url_datos : string :=
  "../outputs_analysis/datos_visualizacion_real.json".
Definition url_maximos : string :=
  "../outputs_analysis/maximos_por_clasificacion.json".

(** [await fetch(url)]. *)
Definition fetch {A : Type} (url : string) (served : Served A)
  : M (Response A) :=
  net_event (FetchIssued url) ;;
  match served with
  | Rejects => net_event (FetchRejected url) ;; throw NetworkError
  | Fulfils body => net_event (FetchFulfilled url) ;; ret (mkResponse url body)
  end.

(** [await response.json()]. *)
Definition json {A : Type} (response : Response A) : M A :=
  match response_body response with
  | None => net_event (BodyRejected (response_url response)) ;; throw SyntaxError
  | Some data => net_event (BodyParsed (response_url response)) ;; ret data
  end.

(** ** The methods of [MapaProvincias] *)

(** Chart instances created and not destroyed, after the calls of a log. *)
Definition chart_step (live : list nat) (e : ChartEvent) : list nat :=
  match e with
  | ChartNew id _ => live ++ [id]
  | ChartDestroy id => List.filter (fun j => negb (Nat.eqb j id)) live
  end.

Definition live_charts (log : list ChartEvent) : list nat :=
  fold_left chart_step log [].

(** [new Chart(canvas, config)]: the instance is named by its rank among
    the calls made so far. *)
Definition new_Chart (cfg : ChartConfig) : M nat :=
  fun s =>
    let id := List.length (chartjs s) in
    (Returned id, set_chartjs (chartjs s ++ [ChartNew id cfg]) s).

Definition chart_destroy (id : nat) : M unit :=
  modify (fun s => set_chartjs (chartjs s ++ [ChartDestroy id]) s).

Definition projection (e : string * ClaseDatos) : Bar :=
  let '(nombre, datos) := e in
  {| bar_nombre := nombre;
     bar_area := area_km2 datos;
     bar_porcentaje := porcentaje datos;
     bar_color := color datos |}.

(** The array [datos] of [crearGraficoEnPopup]. *)
Definition datos_grafico (clasificaciones : Js.object ClaseDatos) : list Bar :=
  Js.sort (fun a b => bar_area b - bar_area a)
    (List.map projection (Js.entries clasificaciones)).

(** [canvas] is what [document.getElementById(canvasId)] returns when the
    method runs: the canvas of the popup if Leaflet still shows it, [None]
    for [null]. *)
Definition crearGraficoEnPopup (canvas : option Canvas)
    (provinciaNombre : string) (clasificaciones : Js.object ClaseDatos)
  : M unit :=
  match canvas with
  | None => ret tt
  | Some canvas =>
      this_chart <- gets chart ;;
      match this_chart with
      | Some c => chart_destroy c
      | None => ret tt
      end ;;
      let datos := datos_grafico clasificaciones in
      let labels := List.map bar_nombre datos in
      let areas := List.map bar_area datos in
      let colores := List.map bar_color datos in
      c <- new_Chart
             {| cfg_canvas := canvas;
                cfg_type := "bar";
                cfg_labels := labels;
                cfg_data := areas;
                cfg_backgroundColor := colores;
                cfg_borderColor := colores;
                cfg_title := "Distribución Real - " ++ provinciaNombre;
                cfg_datos := datos |} ;;
      modify (set_chart (Some c))
  end.

Definition maximo_item (e : string * Maximo) : MaximoItem :=
  let '(clase, datos) := e in
  {| item_borderLeftColor := max_color datos;
     item_swatch := max_color datos;
     item_clase := clase;
     item_provincia := max_provincia datos;
     item_porcentaje := max_porcentaje datos |}.

Definition sortedMaximos (maximosData : MaximosData) : list (string * Maximo) :=
  Js.sort (fun a b => max_porcentaje (snd b) - max_porcentaje (snd a))
    (Js.entries maximosData).

Definition crearGraficoMaximos (maximosData : MaximosData) : M unit :=
  modify (set_maximosItems []) ;;
  forEach (sortedMaximos maximosData)
    (fun e => modify (fun s => set_maximosItems (maximosItems s ++ [maximo_item e]) s)).

Definition agregarMarcadoresProvincias : M unit :=
  datos <- gets datosProvincias ;;
  match datos with
  | None => ret tt
  | Some datos =>
      let layer := geoJSON datos in
      this_map <- gets map ;;
      match this_map with
      | None => throw TypeError
      | Some m =>
          modify (set_map (Some (mkLeafletMap (view_center m) (view_zoom m)
                                   (map_layers m ++ [GeoJSONLayer layer])))) ;;
          modify (set_provinciasLayer (Some layer))
      end
  end.

Definition inicializarMapa : M unit :=
  modify (set_map (Some (mkLeafletMap (- (384161 # 10000), - (636167 # 10000)) 4
                           [TileLayer "https://{s}.tile.openstreetmap.org/{z}/{x}/{y}.png"]))) ;;
  agregarMarcadoresProvincias.

Definition legend_item (e : string * Clase) : LegendItem :=
  let '(_, clase) := e in
  {| legend_swatch := clase_color clase; legend_label := nombre clase |}.

Section Locale.

(** [a.localeCompare(b)] of the browser: negative, zero or positive. *)
Variable localeCompare : string -> string -> Q.

Definition sortedClases (catalogo : Catalogo) : list (string * Clase) :=
  Js.sort (fun a b => localeCompare (nombre (snd a)) (nombre (snd b)))
    (Js.entries catalogo).

Definition crearLeyenda : M unit :=
  modify (set_legendItems []) ;;
  catalogo <- gets clasificaciones ;;
  match catalogo with
  | None => ret tt
  | Some catalogo =>
      forEach (sortedClases catalogo)
        (fun e => modify (fun s => set_legendItems (legendItems s ++ [legend_item e]) s))
  end.

Definition cargarDatos (net : Network) : M Data :=
  try_catch
    (response <- fetch url_datos (datos_visualizacion_real net) ;;
     data <- json response ;;
     modify (set_datosProvincias (data_provincias data)) ;;
     modify (set_clasificaciones (data_clasificaciones data)) ;;
     maximosResponse <- fetch url_maximos (maximos_por_clasificacion net) ;;
     maximosData <- json maximosResponse ;;
     crearGraficoMaximos maximosData ;;
     console_log "Datos cargados exitosamente" ;;
     ret data)
    (fun error =>
       console_error "Error cargando datos:" (Some error) ;;
       throw error).

Definition is_object {A : Type} (v : option A) : bool :=
  match v with Some _ => true | None => false end.

Definition init (net : Network) : M unit :=
  try_catch
    (cargarDatos net ;;
     datos <- gets datosProvincias ;;
     catalogo <- gets clasificaciones ;;
     if is_object datos && is_object catalogo
     then inicializarMapa ;; crearLeyenda
     else console_error
            "Error cargando datos. Verifica que el archivo datos_visualizacion_real.json existe."
            None)
    (fun error => console_error "Error inicializando:" (Some error)).

(** [new MapaProvincias()] on a page: the state once [init] has settled. *)
Definition new_MapaProvincias (net : Network) (page : State) : State :=
  snd (init net (constructor_fields page)).

End Locale.

(** The timer callbacks of the [popupopen] handlers that run after
    start-up, each with what [getElementById] finds when it runs. *)
Record PopupOpen : Type := mkPopupOpen {
  open_canvas : option Canvas;
  open_provincia : string;
  open_clasificaciones : Js.object ClaseDatos
}.

Definition popupopen (s : State) (ev : PopupOpen) : State :=
  snd (crearGraficoEnPopup (open_canvas ev) (open_provincia ev)
         (open_clasificaciones ev) s).

Definition popupopens (s : State) (evs : list PopupOpen) : State :=
  fold_left popupopen evs s.

(** A page before the script runs: empty containers, nothing logged. *)
Definition blank_page : State :=
  mkState None None None None None [] [] [] [] [].

(** ** A sample session

    A comparator that orders strings by their code units (the collation of
    a browser's locale is not fixed by the language), and documents in the
    shape the dashboard expects. *)

Definition ordinalCompare (a b : string) : Q :=
  match String_as_OT.compare a b with
  | Lt => - 1
  | Eq => 0
  | Gt => 1
  end.

Definition buenos_aires : Feature :=
  {| provincia := "Buenos Aires";
     area_total_km2 := 3000;
     total_pixels := 30000;
     feat_clasificaciones :=
       [("Bosque", mkClaseDatos 1200 40 "#397d49");
        ("Agua", mkClaseDatos 1800 60 "#419bdf")];
     latlng := (- (366 # 10), - (603 # 10)) |}.

(** A province whose only class covers nothing. *)
Definition sin_cobertura : Feature :=
  {| provincia := "Tierra del Fuego";
     area_total_km2 := 0;
     total_pixels := 0;
     feat_clasificaciones := [("Nieve y hielo", mkClaseDatos 0 0 "#b39fe1")];
     latlng := (- (541 # 10), - (675 # 10)) |}.

(** A class mapping with two classes that cover nothing. *)
Definition la_pampa : Js.object ClaseDatos :=
  [("Nieve y hielo", mkClaseDatos 0 0 "#b39fe1");
   ("Pastizales", mkClaseDatos 143440 100 "#7a87c6");
   ("Agua", mkClaseDatos 0 0 "#419bdf")].

Definition catalogo_ejemplo : Catalogo :=
  [("water", mkClase "Agua" "#419bdf");
   ("trees", mkClase "Bosque" "#397d49");
   ("grass", mkClase "Pastizales" "#7a87c6");
   ("shrub_and_scrub", mkClase "Matorrales" "#88b053")].

Definition maximos_ejemplo : MaximosData :=
  [("Agua", mkMaximo "Tierra del Fuego" 25 "#419bdf");
   ("Bosque", mkMaximo "Misiones" 80 "#397d49");
   ("Pastizales", mkMaximo "La Pampa" 60 "#7a87c6")].

(** Two classes reach the same national maximum. *)
Definition maximos_empatados : MaximosData :=
  [("Agua", mkMaximo "Tierra del Fuego" 25 "#419bdf");
   ("Bosque", mkMaximo "Misiones" 80 "#397d49");
   ("Matorrales", mkMaximo "Chubut" 80 "#88b053")].

Definition data_ejemplo : Data :=
  mkData (Some [buenos_aires]) (Some catalogo_ejemplo).

Definition red_ejemplo : Network :=
  mkNetwork (Fulfils (Some data_ejemplo)) (Fulfils (Some maximos_ejemplo)).

(** ** Notions the properties are stated with *)

(** [first_max l i e]: entry [i] of [l] is [e], no entry has a larger
    percentage, and every earlier entry has a smaller one. *)
Definition first_max (l : Js.object ClaseDatos) (i : nat)
    (e : string * ClaseDatos) : Prop :=
  nth_error l i = Some e /\
  (forall e', In e' l -> porcentaje (snd e') <= porcentaje (snd e)) /\
  (forall j e', (j < i)%nat -> nth_error l j = Some e' ->
                porcentaje (snd e') < porcentaje (snd e)).

(** The two loops as one, [pick] being what the loop keeps of an entry. *)
Definition scan_step (pick : string * ClaseDatos -> string)
    (st : option string * Q) (e : string * ClaseDatos) : option string * Q :=
  if Js.gt (porcentaje (snd e)) (snd st)
  then (Some (pick e), porcentaje (snd e))
  else st.

Definition scan (pick : string * ClaseDatos -> string)
    (l : Js.object ClaseDatos) : option string * Q :=
  fold_left (scan_step pick) l (None, 0).

(** The sentence of the specification about the dominant class: with a
    non-empty mapping, the class the popup names is the first entry of
    maximum percentage. *)
Definition dominant_is_first_max (feature : Feature) : Prop :=
  feat_clasificaciones feature <> [] ->
  forall layer, exists i e,
    first_max (feat_clasificaciones feature) i e /\
    popup_claseDominante (layer_popup (onEachFeature feature layer)) = Some (fst e).



(** The configuration of the chart the last Chart.js call created. *)
Definition chart_created (s : State) : option ChartConfig :=
  match rev (chartjs s) with
  | ChartNew _ cfg :: _ => Some cfg
  | _ => None
  end.

Definition opt_list {A : Type} (o : option A) : list A :=
  match o with Some a => [a] | None => [] end.

(** The sentence of the specification about the chart: the areas of the
    bars decrease strictly from left to right. *)
Definition bars_strictly_descending (clasificaciones : Js.object ClaseDatos) : Prop :=
  forall canvas provinciaNombre s cfg,
    chart_created (snd (crearGraficoEnPopup (Some canvas) provinciaNombre clasificaciones s))
    = Some cfg ->
    StronglySorted (fun a b => b < a) (cfg_data cfg).

(** The map [inicializarMapa] builds from the loaded provinces. *)
Definition mapa_inicial (datos : FeatureCollection) : LeafletMap :=
  mkLeafletMap (- (384161 # 10000), - (636167 # 10000)) 4
    [TileLayer "https://{s}.tile.openstreetmap.org/{z}/{x}/{y}.png";
     GeoJSONLayer (geoJSON datos)].

Definition log_console (entries : list ConsoleEntry) (s : State) : State :=
  set_console (console s ++ entries) s.

Definition log_network (events : list NetEvent) (s : State) : State :=
  set_network (network s ++ events) s.

Definition msg_verifica : string :=
  "Error cargando datos. Verifica que el archivo datos_visualizacion_real.json existe.".

(** The assignments of [cargarDatos] once the primary document is parsed. *)
Definition assign_data (data : Data) (s : State) : State :=
  set_clasificaciones (data_clasificaciones data)
    (set_datosProvincias (data_provincias data) s).

Definition network_loaded : list NetEvent :=
  [FetchIssued url_datos; FetchFulfilled url_datos; BodyParsed url_datos;
   FetchIssued url_maximos; FetchFulfilled url_maximos; BodyParsed url_maximos].

(** The instance [this.chart] holds is the only one alive. *)
Definition chart_inv (s : State) : Prop :=
  live_charts (chartjs s) = opt_list (chart s).

(** The sentence of the specification about the panel: the percentages of
    the rows decrease strictly from top to bottom. *)
Definition rows_strictly_descending (maximosData : MaximosData) : Prop :=
  forall s,
    StronglySorted (fun a b => item_porcentaje b < item_porcentaje a)
      (maximosItems (snd (crearGraficoMaximos maximosData s))).

(** The requests and responses of a start-up, oldest first. *)
Definition traffic (net : Network) : list NetEvent :=
  match datos_visualizacion_real net with
  | Rejects => [FetchIssued url_datos; FetchRejected url_datos]
  | Fulfils None =>
      [FetchIssued url_datos; FetchFulfilled url_datos; BodyRejected url_datos]
  | Fulfils (Some _) =>
      [FetchIssued url_datos; FetchFulfilled url_datos; BodyParsed url_datos]
      ++ match maximos_por_clasificacion net with
         | Rejects => [FetchIssued url_maximos; FetchRejected url_maximos]
         | Fulfils None =>
             [FetchIssued url_maximos; FetchFulfilled url_maximos;
              BodyRejected url_maximos]
         | Fulfils (Some _) =>
             [FetchIssued url_maximos; FetchFulfilled url_maximos;
              BodyParsed url_maximos]
         end
  end%list.

(** The urls requested, oldest first. *)
Definition issued (evs : list NetEvent) : list string :=
  flat_map (fun e => match e with FetchIssued url => [url] | _ => [] end) evs.

(** At most one request is in flight at any time. *)
Fixpoint one_at_a_time (pending : option string) (evs : list NetEvent) : bool :=
  match evs with
  | [] => true
  | FetchIssued url :: evs' =>
      match pending with
      | None => one_at_a_time (Some url) evs'
      | Some _ => false
      end
  | FetchFulfilled url :: evs' | FetchRejected url :: evs' =>
      match pending with
      | Some url' => String.eqb url url' && one_at_a_time None evs'
      | None => false
      end
  | BodyParsed _ :: evs' | BodyRejected _ :: evs' =>
      match pending with
      | None => one_at_a_time None evs'
      | Some _ => false
      end
  end.

(** A request or the parse of its body fails. *)
Definition fails {A : Type} (served : Served A) : Prop :=
  served = Rejects \/ served = Fulfils None.

(** Start-up has drawn nothing on the page. *)
Definition nothing_rendered (page s : State) : Prop :=
  map s = None /\ provinciasLayer s = None /\
  maximosItems s = maximosItems page /\ legendItems s = legendItems page /\
  chartjs s = chartjs page /\ chart s = None.


Definition same_data (s s' : State) : Prop :=
  datosProvincias s' = datosProvincias s /\ clasificaciones s' = clasificaciones s.

(** ** The rest of the dashboard and the Earth Engine script *)

(** The timer callback a layer's [popupopen] handler schedules: it calls
    [crearGraficoEnPopup] with the province and mapping the handler closed
    over; [canvas] is what [getElementById] finds when the timer fires. *)
Definition layer_popupopen (layer : ProvinciaLayer) (canvas : option Canvas)
  : PopupOpen :=
  {| open_canvas := canvas;
     open_provincia := fst (layer_on_popupopen layer);
     open_clasificaciones := snd (layer_on_popupopen layer) |}.

(** The configuration [crearGraficoEnPopup] hands to [new Chart]. *)
Definition chart_config (canvas : Canvas) (provinciaNombre : string)
    (clasificaciones : Js.object ClaseDatos) : ChartConfig :=
  let datos := datos_grafico clasificaciones in
  {| cfg_canvas := canvas;
     cfg_type := "bar";
     cfg_labels := List.map bar_nombre datos;
     cfg_data := List.map bar_area datos;
     cfg_backgroundColor := List.map bar_color datos;
     cfg_borderColor := List.map bar_color datos;
     cfg_title := "Distribución Real - " ++ provinciaNombre;
     cfg_datos := datos |}.

(** The last of a sequence of timer callbacks that found its canvas. *)
Definition last_found (evs : list PopupOpen) : option PopupOpen :=
  fold_left
    (fun acc ev => match open_canvas ev with Some _ => Some ev | None => acc end)
    evs None.

(** The instances a Chart.js log creates and destroys, oldest first. *)
Definition created (log : list ChartEvent) : list nat :=
  flat_map (fun e => match e with ChartNew id _ => [id] | ChartDestroy _ => [] end) log.

Definition destroyed (log : list ChartEvent) : list nat :=
  flat_map (fun e => match e with ChartDestroy id => [id] | ChartNew _ _ => [] end) log.

(** The Chart.js calls made so far are in order: what was created is what
    was destroyed, in the same order, then the chart held. *)
Definition charts_in_order (s : State) : Prop :=
  created (chartjs s) = (destroyed (chartjs s) ++ opt_list (chart s))%list /\
  Forall (fun id => id < List.length (chartjs s))%nat (created (chartjs s)).

(** *** The canvas id

    [`chart-${provincia.replace(/\s+/g, '-')}`], in the popup template and
    again in [crearGraficoEnPopup].  The regular expression works on the
    UTF-16 code units of the name, so names are lists of code units here. *)
Module CanvasId.

(** [\s]: the white space and line terminator code points of ECMAScript. *)
Definition is_space (c : N) : bool :=
  ((9 <=? c) && (c <=? 13) || (c =? 32) || (c =? 160) || (c =? 5760)
   || (8192 <=? c) && (c <=? 8202) || (c =? 8232) || (c =? 8233)
   || (c =? 8239) || (c =? 8287) || (c =? 12288) || (c =? 65279))%N.

Definition hyphen : N := 45.

(** [s.replace(/\s+/g, '-')]: every maximal run of white space becomes one
    hyphen; [in_run] tells that the run being read has been replaced. *)
Fixpoint replace_runs (in_run : bool) (s : list N) : list N :=
  match s with
  | [] => []
  | c :: s' =>
      if is_space c
      then (if in_run then replace_runs true s' else hyphen :: replace_runs true s')
      else c :: replace_runs false s'
  end.

Definition replace_spaces (s : list N) : list N := replace_runs false s.

(** The code units of ["chart-"]. *)
Definition prefix : list N := [99; 104; 97; 114; 116; 45]%N.

Definition canvasId (provinciaNombre : list N) : list N :=
  (prefix ++ replace_spaces provinciaNombre)%list.

End CanvasId.

(** *** [Argentina2024.js]: the legend of the classified image *)

Module Argentina2024.

Definition dwVis_min : nat := 0.
Definition dwVis_max : nat := 8.

Definition dwVis_palette : list string :=
  ["#419bdf"; "#397d49"; "#88b053"; "#7a87c6"; "#e49635";
   "#dfc35a"; "#c4281b"; "#a59b8f"; "#b39fe1"].

Definition names : list string :=
  ["Agua"; "Bosque"; "Matorrales"; "Pastizales"; "Tierras de Cultivo";
   "Vegetación Inundable"; "Áreas Urbanas"; "Suelo Desnudo"; "Nieve y Hielo"].

(** What [legend.add] receives: the title, then one panel per class with
    its color box and its description; [None] is [undefined]. *)
Inductive Widget : Type :=
| LegendTitle (value : string)
| LegendItem (backgroundColor : option string) (value : option string).

(** [for (var i = 0; i < names.length; i++) { ... legend.add(legendItem) }],
    from [i] on; [steps] bounds the iterations left. *)
Fixpoint legend_loop (palette names : list string) (steps i : nat)
    (legend : list Widget) : list Widget :=
  match steps with
  | O => legend
  | S steps' =>
      if (i <? List.length names)%nat
      then legend_loop palette names steps' (S i)
             (legend ++ [LegendItem (nth_error palette i) (nth_error names i)])
      else legend
  end.

(** [addLegend], on any palette and list of names: the widgets of the
    panel handed to [Map.add]. *)
Definition addLegend_with (palette names : list string) : list Widget :=
  legend_loop palette names (List.length names) 0
    [LegendTitle "Clases de Cobertura Terrestre (DW 2024)"].

Definition addLegend : list Widget := addLegend_with dwVis_palette names.

End Argentina2024.

(** ** The loaded documents as shared objects

    [JSON.parse] builds objects and arrays that the dashboard reaches
    through references: [this.datosProvincias], [this.clasificaciones], the
    local [maximosData], and every [datos] and [clase] inside them.  Here
    the objects live in a heap of cells, a value is a primitive or a
    reference into the heap, and the methods are embedded once more on such
    values, with what they allocate ([Object.entries], [map], object
    literals) and what they write in place ([sort]).  A value may have any
    shape a JSON document can give it; a read the language refuses throws
    [TypeError]. *)
Module Store.

Inductive Value : Type :=
| Num (q : Q)
| Str (s : string)
| Bool (b : bool)
| Null
| Undefined
| Ref (l : nat).

Inductive Cell : Type :=
| Obj (props : list (string * Value))
| Arr (elems : list Value).

Definition Heap : Type := list Cell.

(** What the methods ask of the page, of Leaflet and of Chart.js, oldest
    first; references are passed as they are. *)
Inductive Effect : Type :=
| ClearMaximos
| AppendMaximo (borderLeftColor color clase provincia porcentaje : Value)
| ClearLegend
| AppendLegend (color nombre : Value)
| CircleMarker (latlng fillColor : Value)
| BindPopup (provincia area pixels claseDominante maxPorcentaje : Value)
| OnPopupOpen (props clasificaciones : Value)
| DestroyChart (id : nat)
| NewChart (id : nat) (canvas : Canvas) (provinciaNombre labels areas colores datos : Value).

Record World : Type := mkWorld {
  heap : Heap;
  this_chart : option nat;
  effects : list Effect
}.

Definition W (A : Type) : Type := World -> Outcome A * World.

Definition ret {A : Type} (a : A) : W A := fun w => (Returned a, w).

Definition bind {A B : Type} (m : W A) (k : A -> W B) : W B :=
  fun w =>
    match m w with
    | (Returned a, w') => k a w'
    | (Thrown e, w') => (Thrown e, w')
    end.

Definition throw {A : Type} (e : Error) : W A := fun w => (Thrown e, w).

Declare Scope store_scope.
Notation "x <- m ;; k" := (bind m (fun x => k))
  (at level 61, m at next level, right associativity) : store_scope.
Notation "m ;; k" := (bind m (fun _ => k))
  (at level 61, right associativity) : store_scope.
Local Open Scope store_scope.

Fixpoint mapM {A B : Type} (f : A -> W B) (l : list A) : W (list B) :=
  match l with
  | [] => ret []
  | x :: l' => y <- f x ;; ys <- mapM f l' ;; ret (y :: ys)
  end.

Fixpoint forEach {A : Type} (l : list A) (f : A -> W unit) : W unit :=
  match l with
  | [] => ret tt
  | x :: l' => f x ;; forEach l' f
  end.

(** A [for ... of] loop that updates local variables [st]. *)
Fixpoint for_of {A S : Type} (l : list A) (body : S -> A -> W S) (st : S) : W S :=
  match l with
  | [] => ret st
  | x :: l' => st' <- body st x ;; for_of l' body st'
  end.

Definition effect (e : Effect) : W unit :=
  fun w => (Returned tt, mkWorld (heap w) (this_chart w) (effects w ++ [e])).

(** A new object or array: the next free cell. *)
Definition alloc (c : Cell) : W Value :=
  fun w => (Returned (Ref (List.length (heap w))),
            mkWorld (heap w ++ [c])%list (this_chart w) (effects w)).

Fixpoint update (l : nat) (c : Cell) (h : Heap) : Heap :=
  match h, l with
  | [], _ => []
  | _ :: h', O => c :: h'
  | c' :: h', S l' => c' :: update l' c h'
  end.

Fixpoint lookup (props : list (string * Value)) (k : string) : Value :=
  match props with
  | [] => Undefined
  | (k', v) :: props' => if String.eqb k k' then v else lookup props' k
  end.

(** [v.k] for the property names the dashboard reads ([properties],
    [clasificaciones], [provincia], [area_total_km2], [total_pixels],
    [area_km2], [porcentaje], [color], [nombre], [area]), which only plain
    objects can have: [None] is the [TypeError] of reading a property of
    [null] or [undefined]. *)
Definition read_prop (h : Heap) (v : Value) (k : string) : option Value :=
  match v with
  | Null | Undefined => None
  | Ref l =>
      match nth_error h l with
      | Some (Obj props) => Some (lookup props k)
      | _ => Some Undefined
      end
  | Num _ | Str _ | Bool _ => Some Undefined
  end.

Definition get (v : Value) (k : string) : W Value :=
  fun w =>
    match read_prop (heap w) v k with
    | Some x => (Returned x, w)
    | None => (Thrown TypeError, w)
    end.

(** The elements of an array value; the dashboard indexes and iterates
    only arrays it has just built. *)
Definition read_elements (h : Heap) (v : Value) : option (list Value) :=
  match v with
  | Ref l => match nth_error h l with Some (Arr elems) => Some elems | _ => None end
  | _ => None
  end.

Definition elements (v : Value) : W (list Value) :=
  fun w =>
    match read_elements (heap w) v with
    | Some elems => (Returned elems, w)
    | None => (Thrown TypeError, w)
    end.

(** Element [i] of the pair [[key, value]] a destructuring pattern takes
    apart. *)
Definition read_element (h : Heap) (v : Value) (i : nat) : option Value :=
  option_map (fun elems => nth i elems Undefined) (read_elements h v).

Definition element (v : Value) (i : nat) : W Value :=
  elems <- elements v ;; ret (nth i elems Undefined).

Definition index_key (i : nat) : string := NilZero.string_of_uint (Nat.to_uint i).

Definition indexed {A : Type} (f : A -> Value) (l : list A) : list (string * Value) :=
  List.map (fun p => (index_key (fst p), f (snd p)))
    (combine (seq 0 (List.length l)) l).

(** The own enumerable string-keyed properties [Object.entries] lists:
    those of a plain object, the indices of an array or of a string, none
    for a number or a boolean; [None] is the [TypeError] for [null] and
    [undefined]. *)
Definition own_entries (h : Heap) (v : Value) : option (list (string * Value)) :=
  match v with
  | Null | Undefined => None
  | Ref l =>
      match nth_error h l with
      | Some (Obj props) => Some props
      | Some (Arr elems) => Some (indexed (fun x => x) elems)
      | None => Some []
      end
  | Str s => Some (indexed (fun c => Str (String c EmptyString)) (list_ascii_of_string s))
  | Num _ | Bool _ => Some []
  end.

(** [Object.entries(v)]: a new array of new pairs [[key, value]]; the
    values are shared with [v], not copied. *)
Definition Object_entries (v : Value) : W Value :=
  fun w =>
    match own_entries (heap w) v with
    | None => (Thrown TypeError, w)
    | Some es =>
        (pairs <- mapM (fun e => alloc (Arr [Str (fst e); snd e])) es ;;
         alloc (Arr pairs)) w
    end.

(** [arr.map(f)]: a new array. *)
Definition Array_map (f : Value -> W Value) (arr : Value) : W Value :=
  elems <- elements arr ;;
  results <- mapM f elems ;;
  alloc (Arr results).

(** [arr.sort(comparefn)] sorts [arr] in place and returns it.  The
    comparators of the dashboard only read: [comparefn h a b] is the number
    returned on heap [h], or [None] when the comparator throws, and then
    the array is left as it was.  The order is that of [Js.sort]; where a
    comparator is not consistent, or throws, what an engine leaves in the
    array is its own choice, but the array it writes is [arr] and no
    other. *)
Fixpoint insert_with (comparefn : Value -> Value -> option Q) (x : Value)
    (l : list Value) : option (list Value) :=
  match l with
  | [] => Some [x]
  | y :: l' =>
      match comparefn x y with
      | None => None
      | Some c =>
          if Js.gt c 0
          then option_map (cons y) (insert_with comparefn x l')
          else Some (x :: y :: l')
      end
  end.

Fixpoint sort_with (comparefn : Value -> Value -> option Q) (l : list Value)
  : option (list Value) :=
  match l with
  | [] => Some []
  | x :: l' =>
      match sort_with comparefn l' with
      | None => None
      | Some sorted => insert_with comparefn x sorted
      end
  end.

Definition Array_sort (comparefn : Heap -> Value -> Value -> option Q)
    (arr : Value) : W Value :=
  fun w =>
    match arr with
    | Ref l =>
        match nth_error (heap w) l with
        | Some (Arr elems) =>
            match sort_with (comparefn (heap w)) elems with
            | Some sorted =>
                (Returned arr,
                 mkWorld (update l (Arr sorted) (heap w)) (this_chart w) (effects w))
            | None => (Thrown TypeError, w)
            end
        | _ => (Thrown TypeError, w)
        end
    | _ => (Thrown TypeError, w)
    end.

(** Truthiness. *)
Definition truthy (v : Value) : bool :=
  match v with
  | Num q => negb (Qeq_bool q 0)
  | Str s => negb (String.eqb s "")
  | Bool b => b
  | Null | Undefined => false
  | Ref _ => true
  end.

(** A method every value but [null] and [undefined] has
    ([toLocaleString]); one only numbers have ([toFixed]); one only strings
    have ([replace]). *)
Definition has_toLocaleString (v : Value) : W unit :=
  match v with Null | Undefined => throw TypeError | _ => ret tt end.

Definition has_toFixed (v : Value) : W unit :=
  match v with Num _ => ret tt | _ => throw TypeError end.

Definition has_replace (v : Value) : W unit :=
  match v with Str _ => ret tt | _ => throw TypeError end.

Section Builtins.

(** The conversions of the language, on values of any shape: [ToNumber]
    ([None] for [NaN]), the relational [>], and [localeCompare] on a string
    receiver. *)
Variable ToNumber : Heap -> Value -> option Q.
Variable greater : Heap -> Value -> Value -> bool.
Variable localeCompare : Heap -> string -> Value -> Q.

(** [x - y] as a comparator result: a [NaN] counts as [0]. *)
Definition minus (h : Heap) (x y : Value) : Q :=
  match ToNumber h x, ToNumber h y with
  | Some a, Some b => a - b
  | _, _ => 0
  end.

Definition gt (x y : Value) : W bool :=
  fun w => (Returned (greater (heap w) x y), w).

(** The loop shared by [pointToLayer] and [onEachFeature]; [keep] is what
    the loop stores in [claseDominante]: [datos.color] or [nombre]. *)
Definition dominant (keep : Value -> Value -> W Value) (clasificaciones : Value)
  : W (Value * Value) :=
  entries <- Object_entries clasificaciones ;;
  pairs <- elements entries ;;
  for_of pairs
    (fun st pair =>
       nombre <- element pair 0 ;;
       datos <- element pair 1 ;;
       p <- get datos "porcentaje" ;;
       g <- gt p (snd st) ;;
       if g
       then (maxPorcentaje <- get datos "porcentaje" ;;
             claseDominante <- keep nombre datos ;;
             ret (claseDominante, maxPorcentaje))
       else ret st)
    (Null, Num 0).

Definition pointToLayer (feature latlng : Value) : W unit :=
  props <- get feature "properties" ;;
  clasificaciones <- get props "clasificaciones" ;;
  st <- dominant (fun _ datos => get datos "color") clasificaciones ;;
  effect (CircleMarker latlng
            (if truthy (fst st) then fst st else Str "#3388ff")).

Definition onEachFeature (feature : Value) : W unit :=
  props <- get feature "properties" ;;
  clasificaciones <- get props "clasificaciones" ;;
  st <- dominant (fun nombre _ => ret nombre) clasificaciones ;;
  provincia <- get props "provincia" ;;
  area <- get props "area_total_km2" ;;
  has_toLocaleString area ;;
  pixels <- get props "total_pixels" ;;
  has_toLocaleString pixels ;;
  has_toFixed (snd st) ;;
  has_replace provincia ;;
  effect (BindPopup provincia area pixels (fst st) (snd st)) ;;
  effect (OnPopupOpen props clasificaciones).

Definition new_Chart (canvas : Canvas)
    (provinciaNombre labels areas colores datos : Value) : W unit :=
  fun w =>
    let id := List.length (effects w) in
    (Returned tt,
     mkWorld (heap w) (Some id)
       (effects w ++ [NewChart id canvas provinciaNombre labels areas colores datos])).

Definition crearGraficoEnPopup (canvas : option Canvas)
    (provinciaNombre clasificaciones : Value) : W unit :=
  has_replace provinciaNombre ;;
  match canvas with
  | None => ret tt
  | Some canvas =>
      (fun w =>
         match this_chart w with
         | Some c => effect (DestroyChart c) w
         | None => ret tt w
         end) ;;
      entries <- Object_entries clasificaciones ;;
      mapped <- Array_map
                  (fun pair =>
                     nombre <- element pair 0 ;;
                     datos <- element pair 1 ;;
                     area <- get datos "area_km2" ;;
                     porcentaje <- get datos "porcentaje" ;;
                     color <- get datos "color" ;;
                     alloc (Obj [("nombre", nombre); ("area", area);
                                 ("porcentaje", porcentaje); ("color", color)]))
                  entries ;;
      datos <- Array_sort
                 (fun h a b =>
                    match read_prop h b "area", read_prop h a "area" with
                    | Some x, Some y => Some (minus h x y)
                    | _, _ => None
                    end)
                 mapped ;;
      labels <- Array_map (fun d => get d "nombre") datos ;;
      areas <- Array_map (fun d => get d "area") datos ;;
      colores <- Array_map (fun d => get d "color") datos ;;
      new_Chart canvas provinciaNombre labels areas colores datos
  end.

(** The timer callback of a [popupopen] handler: it reads
    [props.provincia] and calls [crearGraficoEnPopup]. *)
Definition popupopen (canvas : option Canvas) (props clasificaciones : Value)
  : W unit :=
  provincia <- get props "provincia" ;;
  crearGraficoEnPopup canvas provincia clasificaciones.

(** The second component of each of two entries, as the parameter
    patterns [[, a]] and [[, b]] bind them. *)
Definition second_of (h : Heap) (e1 e2 : Value) : option (Value * Value) :=
  match read_element h e1 1, read_element h e2 1 with
  | Some a, Some b => Some (a, b)
  | _, _ => None
  end.

Definition crearGraficoMaximos (maximosData : Value) : W unit :=
  effect ClearMaximos ;;
  entries <- Object_entries maximosData ;;
  sortedMaximos <- Array_sort
                     (fun h e1 e2 =>
                        match second_of h e1 e2 with
                        | Some (a, b) =>
                            match read_prop h b "porcentaje",
                                  read_prop h a "porcentaje" with
                            | Some x, Some y => Some (minus h x y)
                            | _, _ => None
                            end
                        | None => None
                        end)
                     entries ;;
  pairs <- elements sortedMaximos ;;
  forEach pairs
    (fun pair =>
       clase <- element pair 0 ;;
       datos <- element pair 1 ;;
       borderLeftColor <- get datos "color" ;;
       color <- get datos "color" ;;
       provincia <- get datos "provincia" ;;
       porcentaje <- get datos "porcentaje" ;;
       effect (AppendMaximo borderLeftColor color clase provincia porcentaje)).

Definition crearLeyenda (this_clasificaciones : Value) : W unit :=
  effect ClearLegend ;;
  if negb (truthy this_clasificaciones) then ret tt
  else
    entries <- Object_entries this_clasificaciones ;;
    sortedClases <- Array_sort
                      (fun h e1 e2 =>
                         match second_of h e1 e2 with
                         | Some (a, b) =>
                             match read_prop h a "nombre" with
                             | Some (Str nombre) =>
                                 match read_prop h b "nombre" with
                                 | Some other => Some (localeCompare h nombre other)
                                 | None => None
                                 end
                             | _ => None
                             end
                         | None => None
                         end)
                      entries ;;
    pairs <- elements sortedClases ;;
    forEach pairs
      (fun pair =>
         clase <- element pair 1 ;;
         color <- get clase "color" ;;
         nombre <- get clase "nombre" ;;
         effect (AppendLegend color nombre)).

(** What runs once the documents are loaded: the maxima panel and the
    legend drawn at start-up, the two callbacks Leaflet calls on the
    features it walks, and the timers of the popups. *)
Inductive Call : Type :=
| CallPointToLayer (feature latlng : Value)
| CallOnEachFeature (feature : Value)
| CallPopupOpen (canvas : option Canvas) (props clasificaciones : Value)
| CallCrearGraficoMaximos (maximosData : Value)
| CallCrearLeyenda (this_clasificaciones : Value).

Definition call (c : Call) : W unit :=
  match c with
  | CallPointToLayer feature latlng => pointToLayer feature latlng
  | CallOnEachFeature feature => onEachFeature feature
  | CallPopupOpen canvas props clasificaciones => popupopen canvas props clasificaciones
  | CallCrearGraficoMaximos maximosData => crearGraficoMaximos maximosData
  | CallCrearLeyenda this_clasificaciones => crearLeyenda this_clasificaciones
  end.

(** The world after a sequence of calls; a call that throws ends there,
    its error caught by [init] or reported by the browser, and the next
    call runs. *)
Definition calls (w : World) (cs : list Call) : World :=
  fold_left (fun w c => snd (call c w)) cs w.

End Builtins.

(** Every cell of [h] is still in [h'], unchanged. *)
Definition unchanged (h h' : Heap) : Prop :=
  forall l c, nth_error h l = Some c -> nth_error h' l = Some c.

End Store.

(** [keeps h0 h]: heap [h] still has every cell of [h0], unchanged, and
    whatever else was allocated since. *)
Definition keeps (h0 h : Store.Heap) : Prop :=
  (List.length h0 <= List.length h)%nat /\
  forall l, (l < List.length h0)%nat -> nth_error h l = nth_error h0 l.

(** A value that is not a reference into [h0]. *)
Definition fresh (h0 : Store.Heap) (v : Store.Value) : Prop :=
  forall l, v = Store.Ref l -> (List.length h0 <= l)%nat.

(** From a heap that keeps [h0], [m] leads to a heap that keeps [h0],
    whether it returns or throws, and what it returns satisfies [Q]. *)
Definition triple {A : Type} (h0 : Store.Heap) (m : Store.W A) (Q : A -> Prop) : Prop :=
  forall w,
    keeps h0 (Store.heap w) ->
    keeps h0 (Store.heap (snd (m w))) /\
    forall a, fst (m w) = Returned a -> Q a.

(** Conversions for a sample session: numbers convert to themselves and
    nothing else converts, strings compare by code units. *)
Definition sample_ToNumber (h : Store.Heap) (v : Store.Value) : option Q :=
  match v with Store.Num q => Some q | _ => None end.

Definition sample_greater (h : Store.Heap) (x y : Store.Value) : bool :=
  match x, y with
  | Store.Num a, Store.Num b => Js.gt a b
  | _, _ => false
  end.

Definition sample_localeCompare (h : Store.Heap) (s : string) (v : Store.Value) : Q :=
  match v with Store.Str t => ordinalCompare s t | _ => 0 end.

(** The heap after [JSON.parse] of a maxima document with classes Agua
    (25, Tierra del Fuego) and Bosque (80, Misiones): the two records, then
    the mapping, which is cell 2. *)
Definition sample_heap : Store.Heap :=
  [Store.Obj [("provincia", Store.Str "Tierra del Fuego");
              ("porcentaje", Store.Num 25); ("color", Store.Str "#419bdf")];
   Store.Obj [("provincia", Store.Str "Misiones");
              ("porcentaje", Store.Num 80); ("color", Store.Str "#397d49")];
   Store.Obj [("Agua", Store.Ref 0); ("Bosque", Store.Ref 1)]].

(** The heap [JSON.parse] builds from a maxima document: one record per
    class, in the order of the document, then the mapping from class to
    record, which is the last cell. *)
Definition parsed_maximo (datos : Maximo) : Store.Cell :=
  Store.Obj [("provincia", Store.Str (max_provincia datos));
             ("porcentaje", Store.Num (max_porcentaje datos));
             ("color", Store.Str (max_color datos))].

Definition parsed_maximos (maximosData : MaximosData) : Store.Heap :=
  (List.map (fun e => parsed_maximo (snd e)) maximosData
   ++ [Store.Obj (List.map (fun p => (fst (snd p), Store.Ref (fst p)))
                    (combine (seq 0 (List.length maximosData)) maximosData))])%list.

(** The row of the panel, as the heap-level method reports it. *)
Definition maximo_effect (e : string * Maximo) : Store.Effect :=
  Store.AppendMaximo (Store.Str (max_color (snd e))) (Store.Str (max_color (snd e)))
    (Store.Str (fst e)) (Store.Str (max_provincia (snd e)))
    (Store.Num (max_porcentaje (snd e))).

(** Where a parsed maxima document and the pairs of its entries lie. *)
Definition laid_out (m : MaximosData) (h : Store.Heap) : Prop :=
  forall i e,
    nth_error m i = Some e ->
    nth_error h i = Some (parsed_maximo (snd e)) /\
    nth_error h (List.length m + 1 + i)
    = Some (Store.Arr [Store.Str (fst e); Store.Ref i]).

(** * Properties *)

(** ** Numbers and sorting *)

Lemma gt_true (a b : Q) : Js.gt a b = true <-> b < a.
Proof.
  unfold Js.gt. rewrite negb_true_iff.
  split; intro H.
  - apply Qnot_le_lt. intro Hle. apply Qle_bool_iff in Hle. congruence.
  - destruct (Qle_bool a b) eqn:E; [|reflexivity].
    apply Qle_bool_iff in E. exfalso. apply (Qlt_not_le _ _ H E).
Qed.

Lemma gt_false (a b : Q) : Js.gt a b = false <-> a <= b.
Proof.
  unfold Js.gt. rewrite negb_false_iff. apply Qle_bool_iff.
Qed.

Section SortFacts.
Context {A : Type} (comparefn : A -> A -> Q).

Let not_after (a b : A) : Prop := comparefn a b <= 0.
Let before (a b : A) : Prop := comparefn a b < 0.

Lemma insert_perm (x : A) (l : list A) :
  Permutation (Js.insert comparefn x l) (x :: l).
Proof.
  induction l as [|y l IH]; simpl; [reflexivity|].
  destruct (Js.gt (comparefn x y) 0); [|reflexivity].
  rewrite IH. apply perm_swap.
Qed.

Lemma sort_perm (l : list A) : Permutation (Js.sort comparefn l) l.
Proof.
  induction l as [|x l IH]; simpl; [reflexivity|].
  rewrite insert_perm. now constructor.
Qed.

Lemma sort_length (l : list A) :
  List.length (Js.sort comparefn l) = List.length l.
Proof. apply Permutation_length, sort_perm. Qed.

Lemma insert_sorted (x : A) (l : list A) :
  Js.consistent comparefn ->
  StronglySorted not_after l -> StronglySorted not_after (Js.insert comparefn x l).
Proof.
  intros [Htot Htr] Hs. induction Hs as [|y l Hs IH Hy]; simpl.
  - repeat constructor.
  - destruct (Js.gt (comparefn x y) 0) eqn:E.
    + apply gt_true in E. constructor; [exact IH|].
      apply (Permutation_Forall (x := x :: l)).
      * symmetry. apply insert_perm.
      * constructor; [apply Htot; exact E | exact Hy].
    + apply gt_false in E. constructor; [constructor; assumption|].
      constructor; [exact E|].
      eapply Forall_impl; [|exact Hy].
      intros z Hz. apply Htr with y; assumption.
Qed.

Lemma sort_sorted (l : list A) :
  Js.consistent comparefn -> StronglySorted not_after (Js.sort comparefn l).
Proof.
  intro Hc. induction l as [|x l IH]; simpl.
  - constructor.
  - apply insert_sorted; assumption.
Qed.

(** No two elements compare equal: the order of the result is strict. *)
Let apart (a b : A) : Prop := ~ comparefn a b == 0 /\ ~ comparefn b a == 0.

Lemma insert_strict (x : A) (l : list A) :
  Js.consistent comparefn ->
  Forall (apart x) l ->
  StronglySorted before l -> StronglySorted before (Js.insert comparefn x l).
Proof.
  intros [Htot Htr] Hx Hs. induction Hs as [|y l Hs IH Hy]; simpl.
  - repeat constructor.
  - inversion Hx as [|? ? [Hxy Hyx] Hx']; subst.
    destruct (Js.gt (comparefn x y) 0) eqn:E.
    + apply gt_true in E. constructor; [apply IH; exact Hx'|].
      apply (Permutation_Forall (x := x :: l)).
      * symmetry. apply insert_perm.
      * constructor; [|exact Hy].
        unfold before. specialize (Htot _ _ E).
        apply Qle_lteq in Htot. destruct Htot; [assumption|contradiction].
    + apply gt_false in E.
      assert (Hb : before x y).
      { unfold before. apply Qle_lteq in E. destruct E; [assumption|contradiction]. }
      constructor; [constructor; assumption|].
      constructor; [exact Hb|].
      rewrite Forall_forall in Hy, Hx'. apply Forall_forall. intros z Hz.
      unfold before.
      assert (Hle : comparefn x z <= 0).
      { apply Htr with y; [exact E | apply Qlt_le_weak, Hy, Hz]. }
      apply Qle_lteq in Hle. destruct Hle as [|Heq]; [assumption|].
      destruct (Hx' z Hz) as [Hne _]. contradiction.
Qed.

Lemma sort_strict (l : list A) :
  Js.consistent comparefn ->
  ForallOrdPairs apart l -> StronglySorted before (Js.sort comparefn l).
Proof.
  intros Hc Hl. induction Hl as [|x l Hx Hl IH]; simpl.
  - constructor.
  - apply insert_strict; [exact Hc | | exact IH].
    apply (Permutation_Forall (x := l)); [symmetry; apply sort_perm | exact Hx].
Qed.

(** Stability: elements that compare equal keep their relative order.
    [p] selects a class of elements none of which goes after another. *)
Lemma insert_stable (p : A -> bool) (x : A) (l : list A) :
  (forall a b, p a = true -> p b = true -> comparefn a b <= 0) ->
  filter p (Js.insert comparefn x l) = filter p (x :: l).
Proof.
  intro Hp. induction l as [|y l IH]; [reflexivity|].
  simpl Js.insert. destruct (Js.gt (comparefn x y) 0) eqn:E; [|reflexivity].
  apply gt_true in E. cbn [filter] in *. rewrite IH.
  destruct (p x) eqn:Px, (p y) eqn:Py; try reflexivity.
  exfalso. apply (Qlt_not_le _ _ E). now apply Hp.
Qed.

Lemma sort_stable (p : A -> bool) (l : list A) :
  (forall a b, p a = true -> p b = true -> comparefn a b <= 0) ->
  filter p (Js.sort comparefn l) = filter p l.
Proof.
  intro Hp. induction l as [|x l IH]; [reflexivity|].
  simpl Js.sort. rewrite insert_stable by exact Hp.
  cbn [filter]. now rewrite IH.
Qed.
End SortFacts.

(** The two numeric comparators of the dashboard, [b.key - a.key]. *)
Lemma descending_consistent {A : Type} (key : A -> Q) :
  Js.consistent (fun a b => key b - key a).
Proof.
  split; intros; lra.
Qed.

(** ** The dominant class *)

(** What the loop has found after any prefix of the entries. *)
Lemma scan_spec (pick : string * ClaseDatos -> string) (l : Js.object ClaseDatos) :
  (scan pick l = (None, 0) /\ forall e, In e l -> porcentaje (snd e) <= 0) \/
  (exists i e, scan pick l = (Some (pick e), porcentaje (snd e)) /\
               0 < porcentaje (snd e) /\ first_max l i e).
Proof.
  induction l as [|e l IH] using rev_ind.
  - left. split; [reflexivity | intros e []].
  - unfold scan in *. rewrite fold_left_app. cbn [fold_left].
    destruct IH as [[-> Hall] | (i & e0 & -> & Hpos & Hnth & Hmax & Hbefore)];
      unfold scan_step; cbn [snd].
    + destruct (Js.gt (porcentaje (snd e)) 0) eqn:E.
      * apply gt_true in E. right. exists (List.length l), e.
        split; [reflexivity|]. split; [exact E|]. split; [|split].
        -- rewrite nth_error_app2, Nat.sub_diag by lia. reflexivity.
        -- intros e' Hin. apply in_app_or in Hin.
           destruct Hin as [Hin | [<- | []]].
           ++ specialize (Hall _ Hin). lra.
           ++ lra.
        -- intros j e' Hj Hn. rewrite nth_error_app1 in Hn by exact Hj.
           apply nth_error_In in Hn. specialize (Hall _ Hn). lra.
      * apply gt_false in E. left. split; [reflexivity|].
        intros e' Hin. apply in_app_or in Hin.
        destruct Hin as [Hin | [<- | []]]; [now apply Hall | exact E].
    + assert (Hi : (i < List.length l)%nat).
      { apply nth_error_Some. congruence. }
      destruct (Js.gt (porcentaje (snd e)) (porcentaje (snd e0))) eqn:E.
      * apply gt_true in E. right. exists (List.length l), e.
        split; [reflexivity|]. split; [lra|]. split; [|split].
        -- rewrite nth_error_app2, Nat.sub_diag by lia. reflexivity.
        -- intros e' Hin. apply in_app_or in Hin.
           destruct Hin as [Hin | [<- | []]].
           ++ specialize (Hmax _ Hin). lra.
           ++ lra.
        -- intros j e' Hj Hn. rewrite nth_error_app1 in Hn by exact Hj.
           apply nth_error_In in Hn. specialize (Hmax _ Hn). lra.
      * apply gt_false in E. right. exists i, e0.
        split; [reflexivity|]. split; [exact Hpos|]. split; [|split].
        -- rewrite nth_error_app1 by exact Hi. exact Hnth.
        -- intros e' Hin. apply in_app_or in Hin.
           destruct Hin as [Hin | [<- | []]]; [now apply Hmax | exact E].
        -- intros j e' Hj Hn. rewrite nth_error_app1 in Hn by lia.
           now apply (Hbefore j).
Qed.

Lemma fold_left_pointwise {A B : Type} (f g : A -> B -> A) (l : list B) (a : A) :
  (forall a b, f a b = g a b) -> fold_left f l a = fold_left g l a.
Proof.
  intro H. revert a. induction l as [|b l IH]; intro a; [reflexivity|].
  simpl. rewrite H. apply IH.
Qed.

Lemma scan_nombre_scan (l : Js.object ClaseDatos) :
  scan_nombre l = scan fst l.
Proof.
  apply fold_left_pointwise. intros [cd mx] [n d]. reflexivity.
Qed.

Lemma scan_color_scan (l : Js.object ClaseDatos) :
  scan_color l = scan (fun e => color (snd e)) l.
Proof.
  apply fold_left_pointwise. intros [cd mx] [n d]. reflexivity.
Qed.

(** The entry [first_max] names is unique. *)
Lemma first_max_unique (l : Js.object ClaseDatos) i e i' e' :
  first_max l i e -> first_max l i' e' -> i = i' /\ e = e'.
Proof.
  intros (Hn & Hmax & Hb) (Hn' & Hmax' & Hb').
  assert (i = i').
  { destruct (Nat.lt_trichotomy i i') as [Hlt | [-> | Hlt]]; [|reflexivity|].
    - specialize (Hb' _ _ Hlt Hn). apply nth_error_In in Hn'.
      specialize (Hmax _ Hn'). lra.
    - specialize (Hb _ _ Hlt Hn'). apply nth_error_In in Hn.
      specialize (Hmax' _ Hn). lra. }
  subst. split; congruence.
Qed.

Lemma onEachFeature_popup (feature : Feature) (layer : CircleMarker) :
  let r := scan_nombre (feat_clasificaciones feature) in
  popup_claseDominante (layer_popup (onEachFeature feature layer)) = fst r /\
  popup_maxPorcentaje (layer_popup (onEachFeature feature layer)) = snd r.
Proof.
  unfold onEachFeature. destruct (scan_nombre (feat_clasificaciones feature)).
  split; reflexivity.
Qed.

(** C1, on the code: whenever some class of the province has a positive
    percentage, the scan of [onEachFeature] chooses the first entry of
    maximum percentage, and the popup shows its name and percentage. *)
Theorem onEachFeature_dominant_first_max (feature : Feature) (layer : CircleMarker) :
  (exists e, In e (feat_clasificaciones feature) /\ 0 < porcentaje (snd e)) ->
  exists i e,
    first_max (feat_clasificaciones feature) i e /\
    scan_nombre (feat_clasificaciones feature) = (Some (fst e), porcentaje (snd e)) /\
    popup_claseDominante (layer_popup (onEachFeature feature layer)) = Some (fst e) /\
    popup_maxPorcentaje (layer_popup (onEachFeature feature layer)) = porcentaje (snd e).
Proof.
  intros (e0 & Hin & Hpos).
  destruct (onEachFeature_popup feature layer) as [Hc Hm].
  rewrite Hc, Hm, scan_nombre_scan.
  destruct (scan_spec fst (feat_clasificaciones feature))
    as [[_ Hall] | (i & e & Hs & _ & Hfm)].
  - specialize (Hall _ Hin). lra.
  - exists i, e. rewrite Hs. repeat split; try apply Hfm.
Qed.

Lemma onEachFeature_dominant_first_max_witness :
  exists i e,
    first_max (feat_clasificaciones buenos_aires) i e /\
    scan_nombre (feat_clasificaciones buenos_aires) = (Some (fst e), porcentaje (snd e)) /\
    popup_claseDominante
      (layer_popup (onEachFeature buenos_aires (pointToLayer buenos_aires)))
    = Some (fst e) /\
    popup_maxPorcentaje
      (layer_popup (onEachFeature buenos_aires (pointToLayer buenos_aires)))
    = porcentaje (snd e).
Proof.
  apply onEachFeature_dominant_first_max.
  exists ("Agua", mkClaseDatos 1800 60 "#419bdf").
  split; [simpl; auto | reflexivity].
Defined.

(** C1 as the specification words it fails on [sin_cobertura]: the mapping
    is not empty, and the scan leaves [claseDominante] at [null]. *)
Lemma dominant_is_first_max_fails : ~ dominant_is_first_max sin_cobertura.
Proof.
  intro H.
  destruct (H ltac:(discriminate) (pointToLayer sin_cobertura)) as (i & e & _ & Hs).
  vm_compute in Hs. discriminate.
Qed.

(** ** The marker color *)






(** ** The detail chart *)

(** The state [crearGraficoEnPopup] leaves when the canvas is found. *)
Lemma crearGraficoEnPopup_found canvas provinciaNombre clasificaciones s :
  let datos := datos_grafico clasificaciones in
  let cfg :=
    {| cfg_canvas := canvas;
       cfg_type := "bar";
       cfg_labels := List.map bar_nombre datos;
       cfg_data := List.map bar_area datos;
       cfg_backgroundColor := List.map bar_color datos;
       cfg_borderColor := List.map bar_color datos;
       cfg_title := "Distribución Real - " ++ provinciaNombre;
       cfg_datos := datos |} in
  let log := (chartjs s ++ List.map ChartDestroy (opt_list (chart s)))%list in
  crearGraficoEnPopup (Some canvas) provinciaNombre clasificaciones s
  = (Returned tt,
     set_chart (Some (List.length log))
       (set_chartjs (log ++ [ChartNew (List.length log) cfg]) s)).
Proof.
  destruct s as [m dp cl pl [c|] mi li co nw cj]; cbv zeta;
    unfold crearGraficoEnPopup, bind, gets, modify, chart_destroy, new_Chart, ret;
    unfold set_chart, set_chartjs; simpl;
    rewrite ?app_nil_r; reflexivity.
Qed.

Lemma crearGraficoEnPopup_missing provinciaNombre clasificaciones s :
  crearGraficoEnPopup None provinciaNombre clasificaciones s = (Returned tt, s).
Proof. reflexivity. Qed.

Lemma chart_created_found canvas provinciaNombre clasificaciones s :
  exists cfg,
    chart_created (snd (crearGraficoEnPopup (Some canvas) provinciaNombre clasificaciones s))
    = Some cfg /\
    cfg_datos cfg = datos_grafico clasificaciones /\
    cfg_labels cfg = List.map bar_nombre (cfg_datos cfg) /\
    cfg_data cfg = List.map bar_area (cfg_datos cfg) /\
    cfg_backgroundColor cfg = List.map bar_color (cfg_datos cfg).
Proof.
  rewrite crearGraficoEnPopup_found. unfold chart_created. cbn [snd].
  destruct s; cbn [set_chart set_chartjs chartjs chart].
  rewrite rev_app_distr. cbn [rev app].
  eexists. split; [reflexivity|]. repeat split.
Qed.

Lemma get_In {V : Type} (o : Js.object V) (k : string) (v : V) :
  NoDup (Js.keys o) -> In (k, v) o -> Js.get o k = Some v.
Proof.
  induction o as [|[k' v'] o IH]; intros Hnd Hin; [destruct Hin|].
  inversion Hnd as [|? ? Hnotin Hnd']; subst. simpl.
  destruct Hin as [Heq | Hin].
  - inversion Heq; subst. now rewrite String.eqb_refl.
  - destruct (String.eqb_spec k k') as [->|_]; [|now apply IH].
    exfalso. apply Hnotin. unfold Js.keys.
    change k' with (fst (k', v)). now apply in_map.
Qed.

Lemma StronglySorted_map {A B : Type} (f : A -> B) (R : B -> B -> Prop) (l : list A) :
  StronglySorted (fun a b => R (f a) (f b)) l -> StronglySorted R (List.map f l).
Proof.
  induction 1 as [|x l Hs IH Hx]; simpl; constructor; [assumption|].
  apply Forall_map. exact Hx.
Qed.

Lemma ForallOrdPairs_map {A B : Type} (f : A -> B) (R : B -> B -> Prop) (l : list A) :
  ForallOrdPairs (fun a b => R (f a) (f b)) l -> ForallOrdPairs R (List.map f l).
Proof.
  induction 1 as [|x l Hx Hl IH]; simpl; constructor; [|assumption].
  apply Forall_map. exact Hx.
Qed.

Lemma ForallOrdPairs_impl {A : Type} (R R' : A -> A -> Prop) (l : list A) :
  (forall a b, R a b -> R' a b) -> ForallOrdPairs R l -> ForallOrdPairs R' l.
Proof.
  intros HR. induction 1 as [|x l Hx Hl IH]; constructor; [|assumption].
  eapply Forall_impl; [|exact Hx]. intros; now apply HR.
Qed.

Lemma StronglySorted_weaken {A : Type} (R R' : A -> A -> Prop) (l : list A) :
  (forall a b, R a b -> R' a b) -> StronglySorted R l -> StronglySorted R' l.
Proof.
  intros HR. induction 1 as [|x l Hs IH Hx]; constructor; [assumption|].
  eapply Forall_impl; [|exact Hx]. intros; now apply HR.
Qed.

(** Sorting by [b.key - a.key]: what the result looks like. *)
Section Descending.
Context {A : Type} (key : A -> Q).

Let sorted := Js.sort (fun a b => key b - key a).

Lemma descending_sorted (l : list A) :
  StronglySorted (fun a b => key b <= key a) (sorted l).
Proof.
  eapply StronglySorted_weaken; [|apply sort_sorted, descending_consistent].
  cbv beta. intros a b H. lra.
Qed.

Lemma descending_strict (l : list A) :
  ForallOrdPairs (fun a b => ~ key a == key b) l ->
  StronglySorted (fun a b => key b < key a) (sorted l).
Proof.
  intro Hd.
  eapply StronglySorted_weaken; [|apply sort_strict; [apply descending_consistent|]].
  - cbv beta. intros a b H. lra.
  - eapply ForallOrdPairs_impl; [|exact Hd].
    cbv beta. intros a b Hne. split; intro H0; apply Hne; lra.
Qed.

Lemma descending_stable (v : Q) (l : list A) :
  filter (fun a => Qeq_bool (key a) v) (sorted l)
  = filter (fun a => Qeq_bool (key a) v) l.
Proof.
  apply sort_stable. intros a b Ha Hb.
  apply Qeq_bool_iff in Ha, Hb. lra.
Qed.
End Descending.

(** C3, on the code: the chart has one bar per class of the province; the
    areas never increase from left to right, classes of equal area keep the
    order of the mapping, and the areas decrease strictly when no two
    classes have the same area; the tooltip of each bar shows the
    [porcentaje] of the record the bar's label names. *)
Theorem crearGraficoEnPopup_bars canvas provinciaNombre
    (cls : Js.object ClaseDatos) s :
  NoDup (Js.keys cls) ->
  exists cfg,
    chart_created (snd (crearGraficoEnPopup (Some canvas) provinciaNombre cls s))
    = Some cfg /\
    Permutation (cfg_datos cfg) (List.map projection cls) /\
    List.length (cfg_data cfg) = List.length cls /\
    StronglySorted (fun a b => b <= a) (cfg_data cfg) /\
    (forall v, filter (fun b => Qeq_bool (bar_area b) v) (cfg_datos cfg)
               = filter (fun b => Qeq_bool (bar_area b) v) (List.map projection cls)) /\
    (ForallOrdPairs (fun a b => ~ area_km2 (snd a) == area_km2 (snd b)) cls ->
     StronglySorted (fun a b => b < a) (cfg_data cfg)) /\
    (forall i n, nth_error (cfg_labels cfg) i = Some n ->
                 exists d, Js.get cls n = Some d /\
                           nth_error (cfg_data cfg) i = Some (area_km2 d) /\
                           nth_error (cfg_backgroundColor cfg) i = Some (color d) /\
                           afterLabel cfg i = Some (porcentaje d)).
Proof.
  intro Hnd.
  destruct (chart_created_found canvas provinciaNombre cls s)
    as (cfg & Hc & Hdatos & Hlabels & Hdata & Hcolors).
  exists cfg. split; [exact Hc|].
  assert (Hperm : Permutation (cfg_datos cfg) (List.map projection cls)).
  { rewrite Hdatos. apply sort_perm. }
  split; [exact Hperm|].
  split.
  { rewrite Hdata, length_map, (Permutation_length Hperm). apply length_map. }
  split.
  { rewrite Hdata, Hdatos. apply StronglySorted_map, descending_sorted. }
  split.
  { intro v. rewrite Hdatos. apply (descending_stable bar_area). }
  split.
  { intro Hd. rewrite Hdata, Hdatos. apply StronglySorted_map, descending_strict.
    apply ForallOrdPairs_map. eapply ForallOrdPairs_impl; [|exact Hd].
    intros [na da] [nb db]. exact (fun H => H). }
  intros i n Hi. unfold afterLabel.
  rewrite Hlabels in Hi. rewrite Hdata, Hcolors.
  rewrite nth_error_map in Hi. rewrite !nth_error_map.
  destruct (nth_error (cfg_datos cfg) i) as [b|] eqn:Eb; [|discriminate].
  injection Hi as <-.
  assert (Hin : In b (List.map projection cls)).
  { eapply Permutation_in; [exact Hperm|]. eapply nth_error_In; exact Eb. }
  apply in_map_iff in Hin. destruct Hin as ([k d] & <- & Hin).
  exists d. split; [|repeat split].
  now apply get_In.
Qed.

Lemma crearGraficoEnPopup_bars_witness :
  exists cfg,
    chart_created (snd (crearGraficoEnPopup (Some "chart-La-Pampa") "La Pampa"
                          la_pampa blank_page))
    = Some cfg /\
    cfg_labels cfg = ["Pastizales"; "Nieve y hielo"; "Agua"] /\
    afterLabel cfg 0 = Some 100.
Proof.
  destruct (crearGraficoEnPopup_bars "chart-La-Pampa" "La Pampa" la_pampa blank_page)
    as (cfg & Hc & _).
  - repeat constructor; simpl; intuition discriminate.
  - exists cfg. split; [exact Hc|].
    vm_compute in Hc. injection Hc as <-. split; reflexivity.
Defined.

(** C3 as the specification words it fails on [la_pampa]: two bars have the
    same area, so the areas do not decrease strictly. *)
Lemma bars_strictly_descending_fails : ~ bars_strictly_descending la_pampa.
Proof.
  intro H.
  specialize (H "chart-La-Pampa" "La Pampa" blank_page _ eq_refl).
  vm_compute in H.
  inversion H as [|? ? Hs _]; subst.
  inversion Hs as [|? ? _ Hall]; subst.
  inversion Hall as [|? ? Hlt _]; subst.
  discriminate Hlt.
Qed.

(** ** Closed forms of the renderers *)

Lemma forEach_maximos (l : list (string * Maximo)) (s : State) :
  forEach l (fun e => modify (fun s => set_maximosItems (maximosItems s ++ [maximo_item e]) s)) s
  = (Returned tt, set_maximosItems (maximosItems s ++ List.map maximo_item l) s).
Proof.
  revert s. induction l as [|e l IH]; intro s; destruct s; simpl.
  - unfold ret, set_maximosItems. simpl. now rewrite app_nil_r.
  - unfold bind, modify. simpl. rewrite IH. unfold set_maximosItems. simpl.
    now rewrite <- app_assoc.
Qed.

Lemma forEach_legend (l : list (string * Clase)) (s : State) :
  forEach l (fun e => modify (fun s => set_legendItems (legendItems s ++ [legend_item e]) s)) s
  = (Returned tt, set_legendItems (legendItems s ++ List.map legend_item l) s).
Proof.
  revert s. induction l as [|e l IH]; intro s; destruct s; simpl.
  - unfold ret, set_legendItems. simpl. now rewrite app_nil_r.
  - unfold bind, modify. simpl. rewrite IH. unfold set_legendItems. simpl.
    now rewrite <- app_assoc.
Qed.

Lemma crearGraficoMaximos_spec (maximosData : MaximosData) (s : State) :
  crearGraficoMaximos maximosData s
  = (Returned tt, set_maximosItems (List.map maximo_item (sortedMaximos maximosData)) s).
Proof.
  unfold crearGraficoMaximos, bind, modify. rewrite forEach_maximos.
  destruct s; reflexivity.
Qed.

Lemma crearLeyenda_spec localeCompare (s : State) :
  crearLeyenda localeCompare s
  = (Returned tt,
     set_legendItems
       (match clasificaciones s with
        | Some catalogo => List.map legend_item (sortedClases localeCompare catalogo)
        | None => []
        end) s).
Proof.
  unfold crearLeyenda, bind, modify, gets.
  destruct s as [m dp [cl|] pl c mi li co nw cj]; simpl; [|reflexivity].
  rewrite forEach_legend. reflexivity.
Qed.

Lemma inicializarMapa_spec (datos : FeatureCollection) (s : State) :
  datosProvincias s = Some datos ->
  inicializarMapa s
  = (Returned tt,
     set_provinciasLayer (Some (geoJSON datos)) (set_map (Some (mapa_inicial datos)) s)).
Proof.
  destruct s as [m dp cl pl c mi li co nw cj]. simpl. intros ->. reflexivity.
Qed.

(** ** Closed forms of start-up, by what the network serves *)

Ltac run_state :=
  cbv [set_map set_datosProvincias set_clasificaciones set_provinciasLayer
       set_chart set_maximosItems set_legendItems set_console set_network
       set_chartjs map datosProvincias clasificaciones provinciasLayer chart
       maximosItems legendItems console network chartjs
       data_provincias data_clasificaciones fst snd].

Ltac run_init :=
  cbv [new_MapaProvincias init cargarDatos try_catch bind fetch json
       net_event console_error console_log modify gets throw ret
       log_console log_network constructor_fields assign_data is_object andb
       datos_visualizacion_real maximos_por_clasificacion response_body
       response_url];
  run_state.

Lemma init_primary_rejected localeCompare net page :
  datos_visualizacion_real net = Rejects ->
  new_MapaProvincias localeCompare net page
  = log_console [ConsoleError "Error cargando datos:" (Some NetworkError);
                 ConsoleError "Error inicializando:" (Some NetworkError)]
      (log_network [FetchIssued url_datos; FetchRejected url_datos]
         (constructor_fields page)).
Proof.
  destruct net as [d m], page. cbn [datos_visualizacion_real]. intros ->.
  run_init. now rewrite <- !app_assoc.
Qed.

Lemma init_primary_not_json localeCompare net page :
  datos_visualizacion_real net = Fulfils None ->
  new_MapaProvincias localeCompare net page
  = log_console [ConsoleError "Error cargando datos:" (Some SyntaxError);
                 ConsoleError "Error inicializando:" (Some SyntaxError)]
      (log_network [FetchIssued url_datos; FetchFulfilled url_datos;
                    BodyRejected url_datos]
         (constructor_fields page)).
Proof.
  destruct net as [d m], page. cbn [datos_visualizacion_real]. intros ->.
  run_init. now rewrite <- !app_assoc.
Qed.

Lemma init_maximos_rejected localeCompare net page data :
  datos_visualizacion_real net = Fulfils (Some data) ->
  maximos_por_clasificacion net = Rejects ->
  new_MapaProvincias localeCompare net page
  = log_console [ConsoleError "Error cargando datos:" (Some NetworkError);
                 ConsoleError "Error inicializando:" (Some NetworkError)]
      (log_network [FetchIssued url_datos; FetchFulfilled url_datos;
                    BodyParsed url_datos;
                    FetchIssued url_maximos; FetchRejected url_maximos]
         (assign_data data (constructor_fields page))).
Proof.
  destruct net as [d m], page.
  cbn [datos_visualizacion_real maximos_por_clasificacion]. intros -> ->.
  run_init. now rewrite <- !app_assoc.
Qed.

Lemma init_maximos_not_json localeCompare net page data :
  datos_visualizacion_real net = Fulfils (Some data) ->
  maximos_por_clasificacion net = Fulfils None ->
  new_MapaProvincias localeCompare net page
  = log_console [ConsoleError "Error cargando datos:" (Some SyntaxError);
                 ConsoleError "Error inicializando:" (Some SyntaxError)]
      (log_network [FetchIssued url_datos; FetchFulfilled url_datos;
                    BodyParsed url_datos;
                    FetchIssued url_maximos; FetchFulfilled url_maximos;
                    BodyRejected url_maximos]
         (assign_data data (constructor_fields page))).
Proof.
  destruct net as [d m], page.
  cbn [datos_visualizacion_real maximos_por_clasificacion]. intros -> ->.
  run_init. now rewrite <- !app_assoc.
Qed.

(** Both documents load, and the primary one lacks a field. *)
Lemma init_missing_field localeCompare net page data maximosData :
  datos_visualizacion_real net = Fulfils (Some data) ->
  maximos_por_clasificacion net = Fulfils (Some maximosData) ->
  data_provincias data = None \/ data_clasificaciones data = None ->
  new_MapaProvincias localeCompare net page
  = log_console [ConsoleLog "Datos cargados exitosamente";
                 ConsoleError msg_verifica None]
      (set_maximosItems (List.map maximo_item (sortedMaximos maximosData))
         (log_network network_loaded
            (assign_data data (constructor_fields page)))).
Proof.
  destruct net as [d m], page, data as [dp dc].
  cbn [datos_visualizacion_real maximos_por_clasificacion
       data_provincias data_clasificaciones]. intros -> -> Hmiss.
  run_init. rewrite crearGraficoMaximos_spec. run_state.
  destruct Hmiss as [-> | ->]; [|destruct dp]; run_init;
    now rewrite <- !app_assoc.
Qed.

(** Both documents load, with both fields. *)
Lemma init_loaded localeCompare net page datos catalogo maximosData :
  datos_visualizacion_real net = Fulfils (Some (mkData (Some datos) (Some catalogo))) ->
  maximos_por_clasificacion net = Fulfils (Some maximosData) ->
  new_MapaProvincias localeCompare net page
  = set_legendItems (List.map legend_item (sortedClases localeCompare catalogo))
      (set_provinciasLayer (Some (geoJSON datos))
         (set_map (Some (mapa_inicial datos))
            (log_console [ConsoleLog "Datos cargados exitosamente"]
               (set_maximosItems (List.map maximo_item (sortedMaximos maximosData))
                  (log_network network_loaded
                     (assign_data (mkData (Some datos) (Some catalogo))
                        (constructor_fields page))))))).
Proof.
  destruct net as [d m], page.
  cbn [datos_visualizacion_real maximos_por_clasificacion]. intros -> ->.
  run_init. rewrite crearGraficoMaximos_spec. run_init.
  erewrite inicializarMapa_spec by reflexivity.
  rewrite crearLeyenda_spec. run_init.
  now rewrite <- !app_assoc.
Qed.

(** ** One live chart *)

Lemma live_charts_app (log log' : list ChartEvent) :
  live_charts (log ++ log') = fold_left chart_step log' (live_charts log).
Proof. apply fold_left_app. Qed.

Lemma popupopen_found (s : State) (ev : PopupOpen) (canvas : Canvas) :
  open_canvas ev = Some canvas ->
  exists id cfg,
    chartjs (popupopen s ev)
    = (chartjs s ++ List.map ChartDestroy (opt_list (chart s)) ++ [ChartNew id cfg])%list /\
    chart (popupopen s ev) = Some id /\
    cfg_canvas cfg = canvas /\
    cfg_datos cfg = datos_grafico (open_clasificaciones ev).
Proof.
  intro Hc. unfold popupopen. rewrite Hc, crearGraficoEnPopup_found.
  destruct s; cbv [snd set_chart set_chartjs chartjs chart].
  do 2 eexists. rewrite <- app_assoc. repeat split.
Qed.

Lemma popupopen_missing (s : State) (ev : PopupOpen) :
  open_canvas ev = None -> popupopen s ev = s.
Proof.
  intro Hc. unfold popupopen. now rewrite Hc.
Qed.

Lemma popupopen_live (s : State) (ev : PopupOpen) (canvas : Canvas) :
  chart_inv s -> open_canvas ev = Some canvas ->
  exists id, live_charts (chartjs (popupopen s ev)) = [id] /\
             chart (popupopen s ev) = Some id.
Proof.
  intros Hinv Hc.
  destruct (popupopen_found s ev canvas Hc) as (id & cfg & Hlog & Hch & _).
  exists id. split; [|exact Hch].
  rewrite Hlog, live_charts_app, Hinv.
  destruct (chart s) as [c|]; simpl; [|reflexivity].
  now rewrite Nat.eqb_refl.
Qed.

Lemma popupopen_inv (s : State) (ev : PopupOpen) :
  chart_inv s -> chart_inv (popupopen s ev).
Proof.
  intro Hinv. destruct (open_canvas ev) as [canvas|] eqn:Hc.
  - destruct (popupopen_live s ev canvas Hinv Hc) as (id & Hl & Hch).
    unfold chart_inv. now rewrite Hl, Hch.
  - now rewrite popupopen_missing.
Qed.

Lemma popupopens_inv (evs : list PopupOpen) (s : State) :
  chart_inv s -> chart_inv (popupopens s evs).
Proof.
  revert s. induction evs as [|ev evs IH]; intros s Hinv; [exact Hinv|].
  simpl. apply IH, popupopen_inv, Hinv.
Qed.

Lemma popupopen_keeps_chart (s : State) (ev : PopupOpen) :
  chart s <> None -> chart (popupopen s ev) <> None.
Proof.
  intro Hs. destruct (open_canvas ev) as [canvas|] eqn:Hc.
  - destruct (popupopen_found s ev canvas Hc) as (id & cfg & _ & -> & _). discriminate.
  - now rewrite popupopen_missing.
Qed.

Lemma popupopens_some (evs : list PopupOpen) (s : State) :
  chart s <> None \/ (exists ev, In ev evs /\ open_canvas ev <> None) ->
  chart (popupopens s evs) <> None.
Proof.
  revert s. induction evs as [|ev evs IH]; intros s H.
  - destruct H as [H | (ev & [] & _)]. exact H.
  - simpl. apply IH. destruct H as [H | (ev' & [<- | Hin] & Hc)].
    + left. now apply popupopen_keeps_chart.
    + left. destruct (open_canvas ev) as [canvas|] eqn:E; [|contradiction].
      destruct (popupopen_found s ev canvas E) as (id & cfg & _ & -> & _). discriminate.
    + right. exists ev'. split; assumption.
Qed.

(** Start-up leaves Chart.js alone. *)
Lemma init_charts localeCompare net page :
  chartjs (new_MapaProvincias localeCompare net page) = chartjs page /\
  chart (new_MapaProvincias localeCompare net page) = None.
Proof.
  destruct (datos_visualizacion_real net) as [|[[[dp|] [dc|]]|]] eqn:Ed.
  2-5: destruct (maximos_por_clasificacion net) as [|[m|]] eqn:Em.
  all: first
    [ erewrite init_primary_rejected by eassumption
    | erewrite init_primary_not_json by eassumption
    | erewrite init_maximos_rejected by eassumption
    | erewrite init_maximos_not_json by eassumption
    | erewrite init_loaded by eassumption
    | erewrite init_missing_field by (try eassumption; simpl; auto) ].
  all: destruct page; split; reflexivity.
Qed.

(** C4: from start-up on and whatever popups are opened, [this.chart] is
    the only chart alive, so at most one is; once a detail view has been
    opened exactly one is; and opening a further detail view destroys the
    chart held before it creates the next, leaving that one alone alive. *)
Theorem one_live_chart localeCompare net page (evs : list PopupOpen) :
  chartjs page = [] ->
  let s := popupopens (new_MapaProvincias localeCompare net page) evs in
  live_charts (chartjs s) = opt_list (chart s) /\
  (List.length (live_charts (chartjs s)) <= 1)%nat /\
  ((exists ev, In ev evs /\ open_canvas ev <> None) ->
   List.length (live_charts (chartjs s)) = 1%nat) /\
  (forall ev canvas,
      open_canvas ev = Some canvas ->
      exists id cfg,
        chartjs (popupopen s ev)
        = (chartjs s ++ List.map ChartDestroy (opt_list (chart s))
             ++ [ChartNew id cfg])%list /\
        chart (popupopen s ev) = Some id /\
        live_charts (chartjs (popupopen s ev)) = [id]).
Proof.
  intros Hpage s.
  assert (Hinv : chart_inv s).
  { apply popupopens_inv. unfold chart_inv.
    destruct (init_charts localeCompare net page) as [-> ->].
    now rewrite Hpage. }
  split; [exact Hinv|]. split; [|split].
  - rewrite Hinv. destruct (chart s); simpl; lia.
  - intro Hev. rewrite Hinv.
    assert (Hs : chart s <> None) by (apply popupopens_some; now right).
    destruct (chart s); [reflexivity | contradiction].
  - intros ev canvas Hc.
    destruct (popupopen_found s ev canvas Hc) as (id & cfg & Hlog & Hch & _).
    destruct (popupopen_live s ev canvas Hinv Hc) as (id' & Hl & Hch').
    exists id, cfg. split; [exact Hlog|]. split; [exact Hch|].
    rewrite Hl. congruence.
Qed.

Lemma one_live_chart_witness :
  let s := popupopens (new_MapaProvincias ordinalCompare red_ejemplo blank_page)
             [mkPopupOpen (Some "chart-Buenos-Aires") "Buenos Aires"
                (feat_clasificaciones buenos_aires);
              mkPopupOpen (Some "chart-La-Pampa") "La Pampa" la_pampa] in
  List.length (live_charts (chartjs s)) = 1%nat.
Proof.
  intro s.
  apply (one_live_chart ordinalCompare red_ejemplo blank_page
           [mkPopupOpen (Some "chart-Buenos-Aires") "Buenos Aires"
              (feat_clasificaciones buenos_aires);
            mkPopupOpen (Some "chart-La-Pampa") "La Pampa" la_pampa]).
  - reflexivity.
  - eexists. split; [left; reflexivity | discriminate].
Defined.

(** ** The maxima panel *)

Lemma maximo_item_porcentaje (e : string * Maximo) :
  item_porcentaje (maximo_item e) = max_porcentaje (snd e).
Proof. destruct e; reflexivity. Qed.

(** C6, on the code: the panel is emptied and gets one row per class of the
    maxima mapping, each with the class, its province, its percentage and
    its color; the percentages never increase from top to bottom, classes
    of equal percentage keep the order of the mapping, and the percentages
    decrease strictly when no two classes have the same one. *)
Theorem crearGraficoMaximos_rows (maximosData : MaximosData) (s : State) :
  let rows := maximosItems (snd (crearGraficoMaximos maximosData s)) in
  Permutation rows (List.map maximo_item maximosData) /\
  List.length rows = List.length maximosData /\
  (forall row, In row rows ->
     exists clase datos,
       In (clase, datos) maximosData /\
       row = {| item_borderLeftColor := max_color datos;
                item_swatch := max_color datos;
                item_clase := clase;
                item_provincia := max_provincia datos;
                item_porcentaje := max_porcentaje datos |}) /\
  StronglySorted (fun a b => item_porcentaje b <= item_porcentaje a) rows /\
  (forall v, filter (fun r => Qeq_bool (item_porcentaje r) v) rows
             = filter (fun r => Qeq_bool (item_porcentaje r) v)
                 (List.map maximo_item maximosData)) /\
  (ForallOrdPairs (fun a b => ~ max_porcentaje (snd a) == max_porcentaje (snd b))
     maximosData ->
   StronglySorted (fun a b => item_porcentaje b < item_porcentaje a) rows).
Proof.
  rewrite crearGraficoMaximos_spec.
  replace (maximosItems (snd (Returned tt,
             set_maximosItems (List.map maximo_item (sortedMaximos maximosData)) s)))
    with (List.map maximo_item (sortedMaximos maximosData))
    by (destruct s; reflexivity).
  cbv zeta. unfold sortedMaximos, Js.entries.
  pose (key := fun e : string * Maximo => max_porcentaje (snd e)).
  change (Js.sort (fun a b => max_porcentaje (snd b) - max_porcentaje (snd a)) maximosData)
    with (Js.sort (fun a b => key b - key a) maximosData).
  assert (Hperm : Permutation
                    (List.map maximo_item (Js.sort (fun a b => key b - key a) maximosData))
                    (List.map maximo_item maximosData)).
  { apply Permutation_map, sort_perm. }
  split; [exact Hperm|]. split; [|split; [|split; [|split]]].
  - rewrite (Permutation_length Hperm). apply length_map.
  - intros row Hin. eapply Permutation_in in Hin; [|exact Hperm].
    apply in_map_iff in Hin. destruct Hin as ([clase datos] & <- & Hin).
    exists clase, datos. split; [exact Hin | reflexivity].
  - apply StronglySorted_map.
    eapply StronglySorted_weaken; [|apply (descending_sorted key)].
    intros a b H. now rewrite !maximo_item_porcentaje.
  - intro v. rewrite !filter_map_swap. f_equal.
    erewrite (filter_ext _ (fun a => Qeq_bool (key a) v)).
    + rewrite (descending_stable key). apply filter_ext.
      intro a. now rewrite maximo_item_porcentaje.
    + intro a. now rewrite maximo_item_porcentaje.
  - intro Hd. apply StronglySorted_map.
    eapply StronglySorted_weaken; [|apply (descending_strict key), Hd].
    intros a b H. now rewrite !maximo_item_porcentaje.
Qed.

Lemma crearGraficoMaximos_rows_witness :
  List.map item_clase
    (maximosItems (snd (crearGraficoMaximos maximos_ejemplo blank_page)))
  = ["Bosque"; "Pastizales"; "Agua"] /\
  StronglySorted (fun a b => item_porcentaje b < item_porcentaje a)
    (maximosItems (snd (crearGraficoMaximos maximos_ejemplo blank_page))).
Proof.
  split; [reflexivity|].
  apply (crearGraficoMaximos_rows maximos_ejemplo blank_page).
  repeat constructor; simpl; intro H; discriminate H.
Defined.

(** C6 as the specification words it fails on [maximos_empatados]: two
    rows show the same percentage. *)
Lemma rows_strictly_descending_fails : ~ rows_strictly_descending maximos_empatados.
Proof.
  intro H. specialize (H blank_page). vm_compute in H.
  inversion H as [|? ? _ Hall]; subst.
  inversion Hall as [|? ? Hlt _]; subst.
  discriminate Hlt.
Qed.

(** ** The legend *)

Lemma ordinalCompare_consistent : Js.consistent ordinalCompare.
Proof.
  assert (Hgt : forall a b, String_as_OT.compare a b = Gt -> String_as_OT.compare b a = Lt).
  { intros a b H. destruct (String_as_OT.compare_spec a b) as [| |Hlt]; try discriminate.
    exact Hlt. }
  split.
  - intros a b. unfold ordinalCompare.
    destruct (String_as_OT.compare a b) eqn:E; intro H; try (exfalso; lra).
    rewrite (Hgt _ _ E). lra.
  - intros a b c. unfold ordinalCompare.
    destruct (String_as_OT.compare_spec a b) as [-> | Hab |]; intro H1; try (exfalso; lra).
    + now intros.
    + destruct (String_as_OT.compare_spec b c) as [<- | Hbc |]; intro H2; try (exfalso; lra).
      * rewrite Hab. lra.
      * assert (Hac : String_as_OT.lt a c) by (etransitivity; eassumption).
        rewrite Hac. lra.
Qed.

(** C7: with the catalog loaded, the legend is emptied and gets one
    swatch-and-label row per class of the catalog; the labels are in the
    order of [localeCompare], the browser's alphabetical order, and classes
    whose names compare equal keep the order of the catalog. *)
Theorem crearLeyenda_rows localeCompare (catalogo : Catalogo) (s : State) :
  Js.consistent localeCompare ->
  clasificaciones s = Some catalogo ->
  let rows := legendItems (snd (crearLeyenda localeCompare s)) in
  rows = List.map legend_item (sortedClases localeCompare catalogo) /\
  Permutation rows (List.map legend_item catalogo) /\
  List.length rows = List.length catalogo /\
  (forall row, In row rows ->
     exists id clase, In (id, clase) catalogo /\
                      row = {| legend_swatch := clase_color clase;
                               legend_label := nombre clase |}) /\
  StronglySorted (fun a b => localeCompare (legend_label a) (legend_label b) <= 0) rows.
Proof.
  intros Hc Hs. rewrite crearLeyenda_spec, Hs.
  replace (legendItems (snd (Returned tt,
             set_legendItems (List.map legend_item (sortedClases localeCompare catalogo)) s)))
    with (List.map legend_item (sortedClases localeCompare catalogo))
    by (destruct s; reflexivity).
  cbv zeta. split; [reflexivity|].
  assert (Hperm : Permutation
                    (List.map legend_item (sortedClases localeCompare catalogo))
                    (List.map legend_item catalogo)).
  { apply Permutation_map, sort_perm. }
  split; [exact Hperm|]. split; [|split].
  - rewrite (Permutation_length Hperm). apply length_map.
  - intros row Hin. eapply Permutation_in in Hin; [|exact Hperm].
    apply in_map_iff in Hin. destruct Hin as ([id clase] & <- & Hin).
    exists id, clase. split; [exact Hin | reflexivity].
  - apply StronglySorted_map.
    eapply StronglySorted_weaken; [|apply sort_sorted].
    + cbv beta. intros [ia a] [ib b] H. exact H.
    + destruct Hc as [Htot Htr]. split.
      * intros a b. apply Htot.
      * intros a b c. apply Htr.
Qed.

Lemma crearLeyenda_rows_witness :
  List.map legend_label
    (legendItems (snd (crearLeyenda ordinalCompare
                         (set_clasificaciones (Some catalogo_ejemplo) blank_page))))
  = ["Agua"; "Bosque"; "Matorrales"; "Pastizales"].
Proof.
  destruct (crearLeyenda_rows ordinalCompare catalogo_ejemplo
              (set_clasificaciones (Some catalogo_ejemplo) blank_page)
              ordinalCompare_consistent eq_refl) as [-> _].
  reflexivity.
Defined.

(** ** Start-up: what is requested, what is rendered *)

Ltac init_cases net :=
  let Ed := fresh "Ed" in
  let Em := fresh "Em" in
  destruct (datos_visualizacion_real net) as [|[[[?dp|] [?dc|]]|]] eqn:Ed;
  [ | destruct (maximos_por_clasificacion net) as [|[?m|]] eqn:Em
    | destruct (maximos_por_clasificacion net) as [|[?m|]] eqn:Em
    | destruct (maximos_por_clasificacion net) as [|[?m|]] eqn:Em
    | destruct (maximos_por_clasificacion net) as [|[?m|]] eqn:Em
    | ];
  first
    [ erewrite init_primary_rejected by eassumption
    | erewrite init_primary_not_json by eassumption
    | erewrite init_maximos_rejected by eassumption
    | erewrite init_maximos_not_json by eassumption
    | erewrite init_loaded by eassumption
    | erewrite init_missing_field by (try eassumption; simpl; auto) ].

Lemma init_network localeCompare net page :
  network (new_MapaProvincias localeCompare net page)
  = (network page ++ traffic net)%list.
Proof.
  unfold traffic. init_cases net; destruct page; reflexivity.
Qed.

(** C9: the requests of a start-up are made one at a time, and the maxima
    document is requested only after the primary document has been fetched
    and its body parsed. *)
Theorem fetches_sequential localeCompare net page :
  exists evs,
    network (new_MapaProvincias localeCompare net page) = (network page ++ evs)%list /\
    one_at_a_time None evs = true /\
    forall i, nth_error evs i = Some (FetchIssued url_maximos) ->
              exists j k, (j < k < i)%nat /\
                          nth_error evs j = Some (FetchFulfilled url_datos) /\
                          nth_error evs k = Some (BodyParsed url_datos).
Proof.
  exists (traffic net). split; [apply init_network|].
  unfold traffic.
  destruct (datos_visualizacion_real net) as [|[data|]];
    [| destruct (maximos_por_clasificacion net) as [|[m|]] |];
    (split; [reflexivity|]); intros i Hi;
    do 7 (try destruct i as [|i]); try discriminate Hi;
    try (exists 1%nat, 2%nat; split; [lia | split; reflexivity]);
    destruct i; discriminate Hi.
Qed.

(** C2: when the request or the parse of either document fails, start-up
    draws nothing (no map, no markers, no legend, no maxima panel, no
    chart), logs the error from [cargarDatos] and again from [init] without
    logging success, and requests no url twice; when it is the primary
    document that fails, the maxima document is not requested at all. *)
Theorem init_aborts_on_failure localeCompare net page :
  fails (datos_visualizacion_real net) \/ fails (maximos_por_clasificacion net) ->
  let s := new_MapaProvincias localeCompare net page in
  nothing_rendered page s /\
  (exists error,
      console s = (console page ++
                   [ConsoleError "Error cargando datos:" (Some error);
                    ConsoleError "Error inicializando:" (Some error)])%list) /\
  (exists evs, network s = (network page ++ evs)%list /\ NoDup (issued evs)) /\
  (fails (datos_visualizacion_real net) ->
   exists evs, network s = (network page ++ evs)%list /\ issued evs = [url_datos]).
Proof.
  intros Hfail s. subst s.
  assert (Hurl : NoDup [url_datos; url_maximos]).
  { repeat constructor; simpl; intuition discriminate. }
  assert (Hurl1 : NoDup [url_datos]).
  { repeat constructor; simpl; intuition. }
  unfold fails in *.
  init_cases net;
    try (exfalso; destruct Hfail as [[?|?]|[?|?]]; discriminate).
  all: split; [destruct page; repeat split|].
  all: split; [eexists; destruct page; reflexivity|].
  all: split; [eexists; split; [destruct page; reflexivity|]; assumption|].
  all: intro Hd; try (exfalso; destruct Hd; discriminate).
  all: eexists; split; [destruct page; reflexivity | reflexivity].
Qed.

Lemma init_aborts_on_failure_witness :
  nothing_rendered blank_page
    (new_MapaProvincias ordinalCompare
       (mkNetwork Rejects (Fulfils (Some maximos_ejemplo))) blank_page).
Proof.
  apply (init_aborts_on_failure ordinalCompare
           (mkNetwork Rejects (Fulfils (Some maximos_ejemplo))) blank_page).
  left. left. reflexivity.
Defined.

(** ** A primary document that lacks a field *)




(** ** The loaded data stay as loaded *)

Lemma popupopen_same_data (s : State) (ev : PopupOpen) :
  same_data s (popupopen s ev).
Proof.
  unfold popupopen. destruct (open_canvas ev) as [canvas|].
  - rewrite crearGraficoEnPopup_found. destruct s; split; reflexivity.
  - split; reflexivity.
Qed.

Lemma popupopens_same_data (evs : list PopupOpen) (s : State) :
  same_data s (popupopens s evs).
Proof.
  revert s. induction evs as [|ev evs IH]; intro s; [split; reflexivity|].
  simpl. destruct (IH (popupopen s ev)) as [H1 H2].
  destruct (popupopen_same_data s ev) as [H3 H4].
  split; congruence.
Qed.

(** The provinces and the catalog are assigned by [cargarDatos] from
    the primary document (and stay [null] if it does not load); no renderer
    assigns them again, and neither does any sequence of popups opened
    after start-up. *)
Lemma this_fields_never_reassigned localeCompare net page (evs : list PopupOpen) :
  let s0 := new_MapaProvincias localeCompare net page in
  (forall data,
      datos_visualizacion_real net = Fulfils (Some data) ->
      datosProvincias s0 = data_provincias data /\
      clasificaciones s0 = data_clasificaciones data) /\
  (fails (datos_visualizacion_real net) ->
   datosProvincias s0 = None /\ clasificaciones s0 = None) /\
  same_data s0 (popupopens s0 evs) /\
  (forall s,
      same_data s (snd (agregarMarcadoresProvincias s)) /\
      same_data s (snd (inicializarMapa s)) /\
      same_data s (snd (crearLeyenda localeCompare s)) /\
      (forall maximosData, same_data s (snd (crearGraficoMaximos maximosData s))) /\
      (forall canvas provinciaNombre cls,
          same_data s (snd (crearGraficoEnPopup canvas provinciaNombre cls s)))).
Proof.
  intro s0. subst s0. unfold fails.
  split; [|split; [|split]].
  - intros data Hd.
    init_cases net; try discriminate Hd; injection Hd as <-;
      destruct page; split; reflexivity.
  - intros Hf.
    init_cases net; try (exfalso; destruct Hf; discriminate);
      destruct page; split; reflexivity.
  - apply popupopens_same_data.
  - intro s. split; [|split; [|split; [|split]]].
    + destruct s as [[m|] [dp|] cl pl c mi li co nw cj]; split; reflexivity.
    + destruct s as [m [dp|] cl pl c mi li co nw cj]; split; reflexivity.
    + rewrite crearLeyenda_spec. destruct s; split; reflexivity.
    + intro maximosData. rewrite crearGraficoMaximos_spec.
      destruct s; split; reflexivity.
    + intros [canvas|] provinciaNombre cls.
      * rewrite crearGraficoEnPopup_found. destruct s; split; reflexivity.
      * split; reflexivity.
Qed.

Lemma fetches_sequential_witness :
  network (new_MapaProvincias ordinalCompare red_ejemplo blank_page)
  = [FetchIssued url_datos; FetchFulfilled url_datos; BodyParsed url_datos;
     FetchIssued url_maximos; FetchFulfilled url_maximos; BodyParsed url_maximos] /\
  exists j k, (j < k < 3)%nat /\
              nth_error (network (new_MapaProvincias ordinalCompare red_ejemplo blank_page)) j
              = Some (FetchFulfilled url_datos) /\
              nth_error (network (new_MapaProvincias ordinalCompare red_ejemplo blank_page)) k
              = Some (BodyParsed url_datos).
Proof.
  destruct (fetches_sequential ordinalCompare red_ejemplo blank_page)
    as (evs & Hnet & _ & Hafter).
  split; [reflexivity|].
  vm_compute in Hnet. subst evs.
  apply (Hafter 3%nat). reflexivity.
Defined.

(** * Further properties of the code *)

(** ** Marker and popup of one province *)

(** The two loops of [pointToLayer] and [onEachFeature] stop on the same
    entry. *)
Lemma scans_agree (cls : Js.object ClaseDatos) :
  ((forall e, In e cls -> porcentaje (snd e) <= 0) /\
   scan_nombre cls = (None, 0) /\ scan_color cls = (None, 0)) \/
  (exists i e,
      first_max cls i e /\ 0 < porcentaje (snd e) /\
      scan_nombre cls = (Some (fst e), porcentaje (snd e)) /\
      scan_color cls = (Some (color (snd e)), porcentaje (snd e))).
Proof.
  rewrite scan_nombre_scan, scan_color_scan.
  destruct (scan_spec fst cls) as [[Hn Hall] | (i & e & Hn & Hpos & Hfm)];
    destruct (scan_spec (fun e => color (snd e)) cls)
      as [[Hc Hall'] | (i' & e' & Hc & Hpos' & Hfm')].
  - left. repeat split; assumption.
  - exfalso. destruct Hfm' as (Hnth & _). apply nth_error_In in Hnth.
    specialize (Hall _ Hnth). lra.
  - exfalso. destruct Hfm as (Hnth & _). apply nth_error_In in Hnth.
    specialize (Hall' _ Hnth). lra.
  - right. exists i, e.
    destruct (first_max_unique _ _ _ _ _ Hfm Hfm') as [_ <-].
    repeat split; try assumption; apply Hfm.
Qed.

Lemma first_max_In (cls : Js.object ClaseDatos) i e :
  first_max cls i e -> In e cls.
Proof. intros (Hn & _). eapply nth_error_In; exact Hn. Qed.



(** At the end of the loop of [onEachFeature], [maxPorcentaje] is never
    negative and no class of the province exceeds it; [claseDominante] is
    [null] exactly when no class has a positive percentage (an empty mapping
    included), and then [maxPorcentaje] is 0; a class the loop names is a key
    of the mapping.  These are the values the popup template receives; it
    prints the number through [toFixed(1)], and the bound is on the number,
    not on the rounded digits. *)
Theorem scan_maxPorcentaje_bounds (feature : Feature) (layer : CircleMarker) :
  let cls := feat_clasificaciones feature in
  let claseDominante := fst (scan_nombre cls) in
  let maxPorcentaje := snd (scan_nombre cls) in
  0 <= maxPorcentaje /\
  (forall e, In e cls -> porcentaje (snd e) <= maxPorcentaje) /\
  (claseDominante = None <-> forall e, In e cls -> porcentaje (snd e) <= 0) /\
  (claseDominante = None -> maxPorcentaje = 0) /\
  (forall n, claseDominante = Some n -> In n (Js.keys cls)) /\
  popup_claseDominante (layer_popup (onEachFeature feature layer)) = claseDominante /\
  popup_maxPorcentaje (layer_popup (onEachFeature feature layer)) = maxPorcentaje.
Proof.
  intros cls claseDominante maxPorcentaje. subst claseDominante maxPorcentaje.
  destruct (onEachFeature_popup feature layer) as [Hc Hm]. fold cls in Hc, Hm.
  rewrite Hc, Hm.
  destruct (scans_agree cls)
    as [(Hall & -> & _) | (i & e & Hfm & Hpos & -> & _)]; cbn [fst snd].
  - split; [lra|]. split; [exact Hall|]. split; [tauto|].
    split; [reflexivity|]. split; [discriminate | split; reflexivity].
  - pose proof (first_max_In _ _ _ Hfm) as Hin.
    split; [lra|]. split; [apply Hfm|]. split; [|split; [|split]].
    + split; [discriminate|]. intro Hall. specialize (Hall _ Hin). lra.
    + discriminate.
    + intros n [= <-]. unfold Js.keys. now apply in_map.
    + split; reflexivity.
Qed.

Lemma entry_eq_dec (a b : string * ClaseDatos) : {a = b} + {a <> b}.
Proof.
  repeat decide equality; try apply Z.eq_dec; try apply Pos.eq_dec.
Defined.

(** When one class has a positive percentage larger than that of every
    other class, the popup and the marker do not depend on the order in
    which the mapping lists its classes. *)
Theorem dominant_order_independent (feature feature' : Feature) :
  Permutation (feat_clasificaciones feature) (feat_clasificaciones feature') ->
  (exists e, In e (feat_clasificaciones feature) /\ 0 < porcentaje (snd e) /\
             forall e', In e' (feat_clasificaciones feature) -> e' <> e ->
                        porcentaje (snd e') < porcentaje (snd e)) ->
  scan_nombre (feat_clasificaciones feature') = scan_nombre (feat_clasificaciones feature) /\
  fillColor (pointToLayer feature') = fillColor (pointToLayer feature).
Proof.
  intros Hperm (e & Hin & Hpos & Hmax).
  assert (Hscan : forall cls,
             Permutation (feat_clasificaciones feature) cls ->
             scan_nombre cls = (Some (fst e), porcentaje (snd e)) /\
             scan_color cls = (Some (color (snd e)), porcentaje (snd e))).
  { intros cls Hp.
    assert (Hin' : In e cls) by (eapply Permutation_in; eassumption).
    destruct (scans_agree cls) as [(Hall & _) | (i & e0 & Hfm & _ & Hn & Hc)].
    - specialize (Hall _ Hin'). lra.
    - destruct (entry_eq_dec e0 e) as [<- | Hne]; [split; assumption|].
      exfalso.
      assert (Hin0 : In e0 (feat_clasificaciones feature)).
      { eapply Permutation_in; [symmetry; exact Hp|]. eapply first_max_In; exact Hfm. }
      specialize (Hmax _ Hin0 Hne).
      destruct Hfm as (_ & Hle & _). specialize (Hle _ Hin'). lra. }
  destruct (Hscan _ Hperm) as [Hn' Hc'].
  destruct (Hscan _ (Permutation_refl _)) as [Hn Hc].
  split; [congruence|].
  unfold pointToLayer. cbn [fillColor]. now rewrite Hc, Hc'.
Qed.

Lemma dominant_order_independent_witness :
  fillColor (pointToLayer
               (mkFeature "Buenos Aires" 3000 30000
                  [("Agua", mkClaseDatos 1800 60 "#419bdf");
                   ("Bosque", mkClaseDatos 1200 40 "#397d49")]
                  (latlng buenos_aires)))
  = fillColor (pointToLayer buenos_aires).
Proof.
  apply dominant_order_independent.
  - apply perm_swap.
  - exists ("Agua", mkClaseDatos 1800 60 "#419bdf").
    split; [simpl; auto|]. split; [reflexivity|].
    intros e' [<- | [<- | []]] Hne; [reflexivity | contradiction].
Defined.

(** ** Start-up *)

(** On what [Network] can serve (a rejected request, a body that is not
    JSON, or a document of the expected shape): [cargarDatos] rejects
    exactly when a request or the parse of a body fails, with a network
    error for a request and a syntax error for a body, and returns the
    primary document otherwise; [init] catches and returns normally, so the
    constructor's call leaves no unhandled rejection.  A body that parses
    to another shape is outside [Network] and outside this statement. *)
Theorem init_never_throws localeCompare net (s : State) :
  fst (init localeCompare net s) = Returned tt /\
  fst (cargarDatos net s)
  = match datos_visualizacion_real net with
    | Rejects => Thrown NetworkError
    | Fulfils None => Thrown SyntaxError
    | Fulfils (Some data) =>
        match maximos_por_clasificacion net with
        | Rejects => Thrown NetworkError
        | Fulfils None => Thrown SyntaxError
        | Fulfils (Some _) => Returned data
        end
    end.
Proof.
  destruct net as [[|[[dp dc]|]] [|[m|]]], s; split; run_init;
    try reflexivity;
    rewrite crearGraficoMaximos_spec; run_init; try reflexivity.
  destruct dp as [datos|], dc as [catalogo|]; run_init; try reflexivity.
  erewrite inicializarMapa_spec by reflexivity.
  rewrite crearLeyenda_spec. reflexivity.
Qed.



(** [agregarMarcadoresProvincias] does nothing without loaded provinces;
    with provinces and no map it throws before assigning anything; with
    both it appends one marker layer to the map, keeping the view and the
    layers already there, and holds the same markers in
    [this.provinciasLayer]. *)
Lemma agregarMarcadoresProvincias_cases (s : State) :
  match datosProvincias s, map s with
  | None, _ => agregarMarcadoresProvincias s = (Returned tt, s)
  | Some _, None => agregarMarcadoresProvincias s = (Thrown TypeError, s)
  | Some datos, Some m =>
      fst (agregarMarcadoresProvincias s) = Returned tt /\
      map (snd (agregarMarcadoresProvincias s))
      = Some (mkLeafletMap (view_center m) (view_zoom m)
                (map_layers m ++ [GeoJSONLayer (geoJSON datos)])) /\
      provinciasLayer (snd (agregarMarcadoresProvincias s)) = Some (geoJSON datos) /\
      maximosItems (snd (agregarMarcadoresProvincias s)) = maximosItems s /\
      legendItems (snd (agregarMarcadoresProvincias s)) = legendItems s /\
      console (snd (agregarMarcadoresProvincias s)) = console s
  end.
Proof.
  destruct s as [[m|] [datos|] cl pl c mi li co nw cj]; cbn [datosProvincias map];
    try reflexivity.
  repeat split.
Qed.

(** ** Detail charts over a session *)

Lemma popupopen_config (s : State) (ev : PopupOpen) (canvas : Canvas) :
  open_canvas ev = Some canvas ->
  let log := (chartjs s ++ List.map ChartDestroy (opt_list (chart s)))%list in
  popupopen s ev
  = set_chart (Some (List.length log))
      (set_chartjs
         (log ++ [ChartNew (List.length log)
                    (chart_config canvas (open_provincia ev) (open_clasificaciones ev))])
         s).
Proof.
  intro Hc. unfold popupopen. rewrite Hc, crearGraficoEnPopup_found. reflexivity.
Qed.

Lemma chart_created_config (s : State) (ev : PopupOpen) (canvas : Canvas) :
  open_canvas ev = Some canvas ->
  chart_created (popupopen s ev)
  = Some (chart_config canvas (open_provincia ev) (open_clasificaciones ev)).
Proof.
  intro Hc. rewrite (popupopen_config s ev canvas Hc). cbv zeta.
  unfold chart_created. destruct s; cbn [set_chart set_chartjs chartjs chart].
  rewrite rev_app_distr. reflexivity.
Qed.

Lemma popupopens_snoc (s : State) (evs : list PopupOpen) (ev : PopupOpen) :
  popupopens s (evs ++ [ev]) = popupopen (popupopens s evs) ev.
Proof. unfold popupopens. now rewrite fold_left_app. Qed.

(** Opening the popup of the marker drawn for a province draws that
    province's chart: its title carries the province's name and its labels
    are the classes of the province's own mapping; if the canvas is gone
    when the timer fires, nothing changes. *)
Theorem popup_opens_own_chart (datos : FeatureCollection) (i : nat)
    (feature : Feature) (s : State) :
  nth_error datos i = Some feature ->
  exists layer,
    nth_error (geoJSON datos) i = Some layer /\
    popupopen s (layer_popupopen layer None) = s /\
    forall canvas,
      exists cfg,
        chart_created (popupopen s (layer_popupopen layer (Some canvas))) = Some cfg /\
        cfg_canvas cfg = canvas /\
        cfg_title cfg = "Distribución Real - " ++ provincia feature /\
        cfg_datos cfg = datos_grafico (feat_clasificaciones feature) /\
        Permutation (cfg_labels cfg) (Js.keys (feat_clasificaciones feature)).
Proof.
  intro Hi. unfold geoJSON. rewrite nth_error_map, Hi. cbn [option_map].
  eexists. split; [reflexivity|]. split; [reflexivity|].
  intro canvas. eexists. split; [apply chart_created_config; reflexivity|].
  unfold layer_popupopen, onEachFeature.
  destruct (scan_nombre (feat_clasificaciones feature)).
  cbn [open_provincia open_clasificaciones layer_on_popupopen fst snd chart_config
       cfg_canvas cfg_title cfg_datos cfg_labels].
  repeat split.
  unfold datos_grafico, Js.keys, Js.entries.
  rewrite sort_perm, map_map.
  erewrite map_ext; [reflexivity|]. intros [n d]. reflexivity.
Qed.

Lemma popup_opens_own_chart_witness :
  exists cfg,
    chart_created
      (popupopen blank_page
         (layer_popupopen (onEachFeature buenos_aires (pointToLayer buenos_aires))
            (Some "chart-Buenos-Aires")))
    = Some cfg /\
    cfg_labels cfg = ["Agua"; "Bosque"].
Proof.
  destruct (popup_opens_own_chart [buenos_aires] 0 buenos_aires blank_page eq_refl)
    as (layer & Hl & _ & Hc).
  injection Hl as <-.
  destruct (Hc "chart-Buenos-Aires") as (cfg & Hcfg & _).
  exists cfg. split; [exact Hcfg|].
  vm_compute in Hcfg. injection Hcfg as <-. reflexivity.
Defined.

Lemma last_found_snoc (evs : list PopupOpen) (ev : PopupOpen) :
  last_found (evs ++ [ev])
  = match open_canvas ev with Some _ => Some ev | None => last_found evs end.
Proof. unfold last_found. now rewrite fold_left_app. Qed.

(** After any sequence of popup timers, the chart on display is the one of
    the last timer that found its canvas: later timers whose canvas was
    gone have changed nothing; if none found its canvas the state is
    untouched. *)
Theorem chart_of_last_found_open (s : State) (evs : list PopupOpen) :
  match last_found evs with
  | Some ev =>
      exists canvas,
        open_canvas ev = Some canvas /\
        chart_created (popupopens s evs)
        = Some (chart_config canvas (open_provincia ev) (open_clasificaciones ev))
  | None => popupopens s evs = s
  end.
Proof.
  induction evs as [|ev evs IH] using rev_ind; [reflexivity|].
  rewrite last_found_snoc, popupopens_snoc.
  destruct (open_canvas ev) as [canvas|] eqn:Hc.
  - exists canvas. split; [exact Hc|]. now apply chart_created_config.
  - rewrite popupopen_missing by exact Hc. exact IH.
Qed.

Lemma created_app (l l' : list ChartEvent) :
  created (l ++ l') = (created l ++ created l')%list.
Proof. apply flat_map_app. Qed.

Lemma destroyed_app (l l' : list ChartEvent) :
  destroyed (l ++ l') = (destroyed l ++ destroyed l')%list.
Proof. apply flat_map_app. Qed.

Lemma created_destroys (ids : list nat) : created (List.map ChartDestroy ids) = [].
Proof. induction ids; simpl; auto. Qed.

Lemma destroyed_destroys (ids : list nat) :
  destroyed (List.map ChartDestroy ids) = ids.
Proof. induction ids; simpl; congruence. Qed.

Lemma popupopen_in_order (s : State) (ev : PopupOpen) :
  charts_in_order s -> NoDup (created (chartjs s)) ->
  charts_in_order (popupopen s ev) /\ NoDup (created (chartjs (popupopen s ev))) /\
  List.length (created (chartjs (popupopen s ev)))
  = (List.length (created (chartjs s))
     + match open_canvas ev with Some _ => 1 | None => 0 end)%nat.
Proof.
  intros [Heq Hlt] Hnd. destruct (open_canvas ev) as [canvas|] eqn:Hc.
  - rewrite (popupopen_config s ev canvas Hc). cbv zeta.
    unfold charts_in_order.
    destruct s as [m dp cl pl c mi li co nw cj];
      cbn [set_chart set_chartjs chartjs chart] in *.
    rewrite !created_app, !destroyed_app, created_destroys, destroyed_destroys.
    cbn [created destroyed flat_map opt_list app]. rewrite !app_nil_r.
    rewrite Forall_forall in Hlt.
    split; [split|split].
    + rewrite Heq. reflexivity.
    + apply Forall_forall. intros id Hin. rewrite !length_app. cbn [List.length].
      apply in_app_or in Hin. destruct Hin as [Hin | [<- | []]].
      * specialize (Hlt _ Hin). lia.
      * rewrite length_app. lia.
    + apply NoDup_app; [exact Hnd | repeat constructor; intros [] |].
      intros id Hin [<- | []].
      specialize (Hlt _ Hin). rewrite length_app in Hlt. lia.
    + rewrite length_app. reflexivity.
  - rewrite popupopen_missing by exact Hc.
    split; [split; assumption|]. split; [exact Hnd | lia].
Qed.

(** From start-up on, whatever popups are opened: no chart instance is
    created twice or destroyed twice, the instances destroyed are exactly
    the instances created before the one on display, in the order of their
    creation, and one instance is created per timer that finds its
    canvas. *)
Theorem charts_destroyed_in_order localeCompare net page (evs : list PopupOpen) :
  chartjs page = [] ->
  let s := popupopens (new_MapaProvincias localeCompare net page) evs in
  created (chartjs s) = (destroyed (chartjs s) ++ opt_list (chart s))%list /\
  NoDup (created (chartjs s)) /\ NoDup (destroyed (chartjs s)) /\
  List.length (created (chartjs s))
  = List.length (filter (fun ev => match open_canvas ev with
                                   | Some _ => true | None => false end) evs).
Proof.
  intros Hpage s.
  assert (H : charts_in_order s /\ NoDup (created (chartjs s)) /\
              List.length (created (chartjs s))
              = List.length (filter (fun ev => match open_canvas ev with
                                               | Some _ => true | None => false end) evs)).
  { subst s. induction evs as [|ev evs IH] using rev_ind.
    - cbn [popupopens fold_left filter List.length].
      destruct (init_charts localeCompare net page) as [Hlog Hch].
      unfold charts_in_order. rewrite Hlog, Hch, Hpage.
      repeat split; constructor.
    - destruct IH as (Hord & Hnd & Hlen).
      rewrite popupopens_snoc.
      destruct (popupopen_in_order _ ev Hord Hnd) as (Hord' & Hnd' & Hlen').
      split; [exact Hord'|]. split; [exact Hnd'|].
      rewrite Hlen', Hlen, filter_app, length_app. cbn [filter].
      destruct (open_canvas ev); reflexivity. }
  destruct H as ([Heq _] & Hnd & Hlen).
  split; [exact Heq|]. split; [exact Hnd|]. split; [|exact Hlen].
  rewrite Heq in Hnd. now apply NoDup_app_remove_r in Hnd.
Qed.

Lemma charts_destroyed_in_order_witness :
  let s := popupopens (new_MapaProvincias ordinalCompare red_ejemplo blank_page)
             [mkPopupOpen (Some "chart-Buenos-Aires") "Buenos Aires"
                (feat_clasificaciones buenos_aires);
              mkPopupOpen None "Buenos Aires" (feat_clasificaciones buenos_aires);
              mkPopupOpen (Some "chart-La-Pampa") "La Pampa" la_pampa] in
  List.length (created (chartjs s)) = 2%nat /\ NoDup (destroyed (chartjs s)).
Proof.
  intro s.
  destruct (charts_destroyed_in_order ordinalCompare red_ejemplo blank_page
              [mkPopupOpen (Some "chart-Buenos-Aires") "Buenos Aires"
                 (feat_clasificaciones buenos_aires);
               mkPopupOpen None "Buenos Aires" (feat_clasificaciones buenos_aires);
               mkPopupOpen (Some "chart-La-Pampa") "La Pampa" la_pampa] eq_refl)
    as (_ & _ & Hnd & Hlen).
  split; [exact Hlen | exact Hnd].
Defined.

(** ** Rendering again *)

(** Drawing the maxima panel or the legend replaces what the container
    showed: drawing after an earlier drawing gives the state of drawing
    once, and without a catalog [crearLeyenda] leaves the legend empty. *)
Theorem rendering_replaces localeCompare (m1 m2 : MaximosData) (s : State) :
  snd (crearGraficoMaximos m2 (snd (crearGraficoMaximos m1 s)))
  = snd (crearGraficoMaximos m2 s) /\
  snd (crearLeyenda localeCompare (snd (crearLeyenda localeCompare s)))
  = snd (crearLeyenda localeCompare s) /\
  (clasificaciones s = None -> legendItems (snd (crearLeyenda localeCompare s)) = []).
Proof.
  rewrite !crearGraficoMaximos_spec, !crearLeyenda_spec.
  destruct s as [m dp [cl|] pl c mi li co nw cj]; repeat split; discriminate.
Qed.

(** ** The order of the documents' keys *)

Lemma strictly_sorted_unique {A : Type} (R : A -> A -> Prop) (l l' : list A) :
  (forall a b, R a b -> R b a -> False) ->
  StronglySorted R l -> StronglySorted R l' -> Permutation l l' -> l = l'.
Proof.
  intros Hasym Hs. revert l'.
  induction Hs as [|a l Hs IH Ha]; intros l' Hs' Hp.
  - apply Permutation_nil in Hp. now subst.
  - destruct Hs' as [|b l' Hs' Hb].
    + symmetry in Hp. apply Permutation_nil in Hp. discriminate.
    + assert (Hab : a = b).
      { assert (Hina : In a (b :: l')) by (eapply Permutation_in; [exact Hp | now left]).
        assert (Hinb : In b (a :: l))
          by (eapply Permutation_in; [symmetry; exact Hp | now left]).
        destruct Hina as [-> | Hina]; [reflexivity|].
        destruct Hinb as [-> | Hinb]; [reflexivity|].
        rewrite Forall_forall in Ha, Hb.
        exfalso. apply (Hasym a b); [now apply Ha | now apply Hb]. }
      subst b. f_equal. apply IH; [exact Hs'|].
      eapply Permutation_cons_inv; exact Hp.
Qed.

Lemma distinct_pairs {A : Type} (key : A -> Q) (l : list A) :
  NoDup l ->
  (forall a b, In a l -> In b l -> key a == key b -> a = b) ->
  ForallOrdPairs (fun a b => ~ key a == key b) l.
Proof.
  induction 1 as [|x l Hx Hnd IH]; intro Hinj; constructor.
  - apply Forall_forall. intros b Hb Heq. apply Hx.
    rewrite (Hinj x b); [exact Hb | now left | now right | exact Heq].
  - apply IH. intros a b Ha Hb. apply Hinj; now right.
Qed.

Lemma descending_canonical {A : Type} (key : A -> Q) (l l' : list A) :
  NoDup l -> Permutation l l' ->
  (forall a b, In a l -> In b l -> key a == key b -> a = b) ->
  Js.sort (fun a b => key b - key a) l' = Js.sort (fun a b => key b - key a) l.
Proof.
  intros Hnd Hp Hinj.
  apply (strictly_sorted_unique (fun a b => key b < key a)).
  - intros a b H1 H2. lra.
  - apply descending_strict, distinct_pairs.
    + eapply Permutation_NoDup; eassumption.
    + intros a b Ha Hb. apply Hinj; eapply Permutation_in; try eassumption;
        symmetry; exact Hp.
  - apply descending_strict, distinct_pairs; assumption.
  - rewrite !sort_perm. symmetry. exact Hp.
Qed.

Lemma NoDup_keys {V : Type} (o : Js.object V) : NoDup (Js.keys o) -> NoDup o.
Proof. apply NoDup_map_inv. Qed.

(** When no two classes have the same maximum, the maxima panel does not
    depend on the order in which the maxima document lists its classes. *)
Theorem maxima_panel_order_independent (m m' : MaximosData) (s s' : State) :
  NoDup (Js.keys m) ->
  Permutation m m' ->
  (forall a b, In a m -> In b m ->
               max_porcentaje (snd a) == max_porcentaje (snd b) -> a = b) ->
  maximosItems (snd (crearGraficoMaximos m' s'))
  = maximosItems (snd (crearGraficoMaximos m s)).
Proof.
  intros Hnd Hp Hinj. rewrite !crearGraficoMaximos_spec.
  destruct s, s'. cbn [snd set_maximosItems maximosItems].
  unfold sortedMaximos, Js.entries. f_equal.
  apply (descending_canonical (fun e => max_porcentaje (snd e)));
    [apply NoDup_keys; exact Hnd | exact Hp | exact Hinj].
Qed.

Lemma maxima_panel_order_independent_witness :
  maximosItems (snd (crearGraficoMaximos (rev maximos_ejemplo) blank_page))
  = maximosItems (snd (crearGraficoMaximos maximos_ejemplo blank_page)).
Proof.
  apply maxima_panel_order_independent.
  - repeat constructor; simpl; intuition discriminate.
  - apply Permutation_rev.
  - intros a b Ha Hb Heq. simpl in Ha, Hb.
    destruct Ha as [<- | [<- | [<- | []]]], Hb as [<- | [<- | [<- | []]]];
      try reflexivity; discriminate Heq.
Defined.

(** When no two classes of a province have the same area, its chart does
    not depend on the order in which the mapping lists the classes. *)
Theorem chart_order_independent (cls cls' : Js.object ClaseDatos) :
  NoDup (Js.keys cls) ->
  Permutation cls cls' ->
  (forall a b, In a cls -> In b cls ->
               area_km2 (snd a) == area_km2 (snd b) -> a = b) ->
  forall canvas provinciaNombre,
    chart_config canvas provinciaNombre cls' = chart_config canvas provinciaNombre cls.
Proof.
  intros Hnd Hp Hinj canvas provinciaNombre.
  assert (Hd : datos_grafico cls' = datos_grafico cls).
  { unfold datos_grafico, Js.entries. apply (descending_canonical bar_area).
    - apply (NoDup_map_inv bar_nombre). rewrite map_map.
      erewrite map_ext; [exact Hnd|]. intros [n d]. reflexivity.
    - now apply Permutation_map.
    - intros a b Ha Hb Heq.
      apply in_map_iff in Ha, Hb.
      destruct Ha as ([na da] & <- & Ha), Hb as ([nb db] & <- & Hb).
      now rewrite (Hinj _ _ Ha Hb Heq). }
  unfold chart_config. now rewrite Hd.
Qed.

Lemma chart_order_independent_witness :
  chart_config "chart-Buenos-Aires" "Buenos Aires"
    (rev (feat_clasificaciones buenos_aires))
  = chart_config "chart-Buenos-Aires" "Buenos Aires"
      (feat_clasificaciones buenos_aires).
Proof.
  apply chart_order_independent.
  - repeat constructor; simpl; intuition discriminate.
  - apply Permutation_rev.
  - intros a b Ha Hb Heq. simpl in Ha, Hb.
    destruct Ha as [<- | [<- | []]], Hb as [<- | [<- | []]];
      try reflexivity; discriminate Heq.
Defined.

(** ** The canvas id *)

Lemma replace_runs_no_space (in_run : bool) (s : list N) :
  Forall (fun c => CanvasId.is_space c = false) (CanvasId.replace_runs in_run s).
Proof.
  revert in_run. induction s as [|c s IH]; intro in_run; simpl; [constructor|].
  destruct (CanvasId.is_space c) eqn:E.
  - destruct in_run; [apply IH|]. constructor; [reflexivity | apply IH].
  - constructor; [exact E | apply IH].
Qed.

Lemma replace_runs_unchanged (in_run : bool) (s : list N) :
  Forall (fun c => CanvasId.is_space c = false) s ->
  CanvasId.replace_runs in_run s = s.
Proof.
  intro H. revert in_run. induction H as [|c s Hc Hs IH]; intro in_run; simpl.
  - reflexivity.
  - now rewrite Hc, IH.
Qed.

Lemma replace_runs_length (in_run : bool) (s : list N) :
  (List.length (CanvasId.replace_runs in_run s) <= List.length s)%nat.
Proof.
  revert in_run. induction s as [|c s IH]; intro in_run; [simpl; lia|].
  pose proof (IH true) as Ht. pose proof (IH false) as Hf.
  cbn [CanvasId.replace_runs].
  destruct (CanvasId.is_space c); [destruct in_run|]; cbn [List.length]; lia.
Qed.

(** The id of a province's canvas holds no white space, whatever the name
    of the province; it is ["chart-"] followed by the name itself when the
    name has no white space, it is never longer than that, and replacing
    again changes nothing. *)
Theorem canvasId_no_space (provinciaNombre : list N) :
  Forall (fun c => CanvasId.is_space c = false) (CanvasId.canvasId provinciaNombre) /\
  (Forall (fun c => CanvasId.is_space c = false) provinciaNombre ->
   CanvasId.canvasId provinciaNombre = (CanvasId.prefix ++ provinciaNombre)%list) /\
  (List.length (CanvasId.canvasId provinciaNombre)
   <= List.length CanvasId.prefix + List.length provinciaNombre)%nat /\
  CanvasId.replace_spaces (CanvasId.replace_spaces provinciaNombre)
  = CanvasId.replace_spaces provinciaNombre.
Proof.
  unfold CanvasId.canvasId, CanvasId.replace_spaces.
  split; [|split; [|split]].
  - apply Forall_app. split; [repeat constructor | apply replace_runs_no_space].
  - intro H. now rewrite replace_runs_unchanged.
  - rewrite length_app. pose proof (replace_runs_length false provinciaNombre). lia.
  - apply replace_runs_unchanged, replace_runs_no_space.
Qed.

Lemma replace_runs_skip (w b : list N) :
  Forall (fun c => CanvasId.is_space c = true) w ->
  CanvasId.replace_runs true (w ++ b) = CanvasId.replace_runs true b.
Proof.
  induction 1 as [|c w Hc Hw IH]; simpl; [reflexivity|]. now rewrite Hc.
Qed.

Lemma replace_runs_gap (in_run : bool) (w b : list N) :
  w <> [] -> Forall (fun c => CanvasId.is_space c = true) w ->
  CanvasId.replace_runs in_run (w ++ b)
  = ((if in_run then [] else [CanvasId.hyphen]) ++ CanvasId.replace_runs true b)%list.
Proof.
  intros Hne Hw. destruct Hw as [|c w Hc Hw]; [contradiction|].
  simpl. rewrite Hc, replace_runs_skip by exact Hw.
  destruct in_run; reflexivity.
Qed.

(** The id does not tell how much white space, or which, separates the
    words of a name: two names that differ only there get the same canvas
    id. *)
Theorem canvasId_spacing_insensitive (a w w' b : list N) :
  w <> [] -> w' <> [] ->
  Forall (fun c => CanvasId.is_space c = true) w ->
  Forall (fun c => CanvasId.is_space c = true) w' ->
  CanvasId.canvasId (a ++ w ++ b) = CanvasId.canvasId (a ++ w' ++ b).
Proof.
  intros Hne Hne' Hw Hw'. unfold CanvasId.canvasId, CanvasId.replace_spaces.
  f_equal. generalize false as in_run.
  induction a as [|c a IH]; intro in_run.
  - cbn [app]. now rewrite !replace_runs_gap.
  - cbn [app CanvasId.replace_runs].
    destruct (CanvasId.is_space c); [destruct in_run|]; now rewrite IH.
Qed.

(** "La Pampa" with one space and with a tab and a space. *)
Lemma canvasId_spacing_insensitive_witness :
  CanvasId.canvasId [76; 97; 32; 80; 97; 109; 112; 97]%N
  = CanvasId.canvasId [76; 97; 9; 32; 80; 97; 109; 112; 97]%N.
Proof.
  apply (canvasId_spacing_insensitive [76; 97]%N [32]%N [9; 32]%N
           [80; 97; 109; 112; 97]%N).
  - discriminate.
  - discriminate.
  - repeat constructor.
  - repeat constructor.
Defined.

Lemma canvasId_no_space_witness :
  CanvasId.canvasId [83; 97; 108; 116; 97]%N
  = [99; 104; 97; 114; 116; 45; 83; 97; 108; 116; 97]%N.
Proof.
  apply (canvasId_no_space [83; 97; 108; 116; 97]%N).
  repeat constructor.
Defined.

(** ** The legend of the Earth Engine script *)

Lemma legend_loop_spec (palette names : list string) (steps i : nat)
    (legend : list Argentina2024.Widget) :
  (i + steps = List.length names)%nat ->
  Argentina2024.legend_loop palette names steps i legend
  = (legend ++ List.map (fun j => Argentina2024.LegendItem
                                    (nth_error palette j) (nth_error names j))
                 (seq i steps))%list.
Proof.
  revert i legend. induction steps as [|steps IH]; intros i legend Hi; simpl.
  - now rewrite app_nil_r.
  - destruct (Nat.ltb_spec i (List.length names)) as [_|Hge]; [|lia].
    rewrite IH by lia. now rewrite <- app_assoc.
Qed.

(** [addLegend] puts the title first and then one row per name, in order;
    row [i] pairs name [i] with palette color [i], and a name beyond the end
    of the palette gets a row without a color.  With the tables of the
    script every class from [dwVis.min] to [dwVis.max] has a row, each
    with its name and its color. *)
Theorem addLegend_rows (palette names : list string) :
  let legend := Argentina2024.addLegend_with palette names in
  List.length legend = S (List.length names) /\
  (exists title, nth_error legend 0 = Some (Argentina2024.LegendTitle title)) /\
  (forall i name,
      nth_error names i = Some name ->
      nth_error legend (S i)
      = Some (Argentina2024.LegendItem (nth_error palette i) (Some name))) /\
  (forall i name,
      nth_error names i = Some name -> (List.length palette <= i)%nat ->
      nth_error legend (S i) = Some (Argentina2024.LegendItem None (Some name))) /\
  (forall clase,
      (Argentina2024.dwVis_min <= clase <= Argentina2024.dwVis_max)%nat ->
      exists color name,
        nth_error Argentina2024.dwVis_palette clase = Some color /\
        nth_error Argentina2024.names clase = Some name /\
        nth_error Argentina2024.addLegend (S clase)
        = Some (Argentina2024.LegendItem (Some color) (Some name))).
Proof.
  assert (Hrow : forall palette names i name,
             nth_error names i = Some name ->
             nth_error (Argentina2024.addLegend_with palette names) (S i)
             = Some (Argentina2024.LegendItem (nth_error palette i) (Some name))).
  { intros p n i name Hi. unfold Argentina2024.addLegend_with.
    rewrite legend_loop_spec by reflexivity. cbn [app nth_error].
    assert (Hlt : (i < List.length n)%nat) by (apply nth_error_Some; congruence).
    rewrite nth_error_map, nth_error_seq.
    destruct (Nat.ltb_spec i (List.length n)) as [_|]; [|lia].
    cbn [option_map Nat.add]. now rewrite Hi. }
  intro legend. subst legend.
  split; [|split; [|split; [|split]]].
  - unfold Argentina2024.addLegend_with.
    rewrite legend_loop_spec by reflexivity.
    cbn [app List.length]. now rewrite length_map, length_seq.
  - unfold Argentina2024.addLegend_with.
    rewrite legend_loop_spec by reflexivity. eexists. reflexivity.
  - intros i name Hi. now apply Hrow.
  - intros i name Hi Hle. rewrite (Hrow _ _ _ _ Hi).
    apply nth_error_None in Hle. now rewrite Hle.
  - intros clase [_ Hmax]. unfold Argentina2024.dwVis_max in Hmax.
    unfold Argentina2024.addLegend.
    do 9 (try destruct clase as [|clase]); try lia;
      do 2 eexists; (split; [reflexivity|]); (split; [reflexivity|]);
      apply Hrow; reflexivity.
Qed.

Lemma addLegend_rows_witness :
  nth_error Argentina2024.addLegend 1
  = Some (Argentina2024.LegendItem (Some "#419bdf") (Some "Agua")).
Proof.
  destruct (addLegend_rows Argentina2024.dwVis_palette Argentina2024.names)
    as (_ & _ & Hrow & _).
  apply (Hrow 0%nat "Agua"). reflexivity.
Defined.

(** ** Popup and chart of one province *)

(** The popup ranks classes by percentage and the chart by area.  When one
    class of a province is ahead of every other class on both counts, with a
    positive percentage, the first bar of the province's chart is the class
    its popup names as dominant. *)
Theorem first_bar_is_dominant (feature : Feature) (canvas : Canvas) :
  (exists e,
      In e (feat_clasificaciones feature) /\ 0 < porcentaje (snd e) /\
      forall e', In e' (feat_clasificaciones feature) -> e' <> e ->
                 porcentaje (snd e') < porcentaje (snd e) /\
                 area_km2 (snd e') < area_km2 (snd e)) ->
  let layer := onEachFeature feature (pointToLayer feature) in
  exists n,
    popup_claseDominante (layer_popup layer) = Some n /\
    nth_error (cfg_labels (chart_config canvas (provincia feature)
                             (feat_clasificaciones feature))) 0
    = Some n.
Proof.
  intros (e & Hin & Hpos & Hmax) layer. subst layer.
  set (cls := feat_clasificaciones feature) in *.
  exists (fst e). split.
  - destruct (onEachFeature_popup feature (pointToLayer feature)) as [-> _].
    fold cls.
    destruct (scans_agree cls) as [(Hall & _) | (i & e0 & Hfm & _ & -> & _)].
    + specialize (Hall _ Hin). lra.
    + cbn [fst]. destruct (entry_eq_dec e0 e) as [-> | Hne]; [reflexivity|].
      exfalso. destruct (Hmax _ (first_max_In _ _ _ Hfm) Hne) as [Hlt _].
      destruct Hfm as (_ & Hle & _). specialize (Hle _ Hin). lra.
  - unfold chart_config. cbn [cfg_labels]. unfold datos_grafico, Js.entries.
    pose proof (descending_sorted bar_area (List.map projection cls)) as Hs.
    pose proof (sort_perm (fun a b => bar_area b - bar_area a)
                  (List.map projection cls)) as Hp.
    cbv zeta in Hs.
    destruct (Js.sort (fun a b => bar_area b - bar_area a) (List.map projection cls))
      as [|h t] eqn:Es.
    + apply Permutation_nil in Hp. apply in_split in Hin.
      destruct Hin as (l1 & l2 & Hcls). rewrite Hcls, map_app in Hp.
      destruct l1; discriminate Hp.
    + cbn [List.map nth_error]. f_equal.
      assert (Hh : In h (List.map projection cls))
        by (eapply Permutation_in; [exact Hp | now left]).
      apply in_map_iff in Hh. destruct Hh as (e' & <- & Hin').
      destruct (entry_eq_dec e' e) as [-> | Hne]; [destruct e; reflexivity|].
      exfalso. destruct (Hmax _ Hin' Hne) as [_ Hlt].
      assert (He : In (projection e) (projection e' :: t)).
      { eapply Permutation_in; [symmetry; exact Hp|]. now apply in_map. }
      destruct He as [Heq | He].
      * assert (Ha : bar_area (projection e') = bar_area (projection e)) by congruence.
        destruct e, e'. cbn [projection bar_area snd] in *. rewrite Ha in Hlt. lra.
      * inversion Hs as [|? ? _ Hall]; subst. rewrite Forall_forall in Hall.
        specialize (Hall _ He). destruct e, e'. cbn [projection bar_area snd] in *. lra.
Qed.

Lemma first_bar_is_dominant_witness :
  exists n,
    popup_claseDominante
      (layer_popup (onEachFeature buenos_aires (pointToLayer buenos_aires)))
    = Some n /\
    nth_error (cfg_labels (chart_config "chart-Buenos-Aires" (provincia buenos_aires)
                             (feat_clasificaciones buenos_aires))) 0
    = Some n.
Proof.
  apply (first_bar_is_dominant buenos_aires "chart-Buenos-Aires").
  exists ("Agua", mkClaseDatos 1800 60 "#419bdf").
  split; [simpl; auto|]. split; [reflexivity|].
  intros e' [<- | [<- | []]] Hne; [split; reflexivity | contradiction].
Defined.

(** ** The loaded objects are never written *)

Lemma keeps_refl (h : Store.Heap) : keeps h h.
Proof. split; [lia | reflexivity]. Qed.

Lemma keeps_trans (h0 h1 h2 : Store.Heap) : keeps h0 h1 -> keeps h1 h2 -> keeps h0 h2.
Proof.
  intros [Hl1 H1] [Hl2 H2]. split; [lia|].
  intros l Hl. rewrite H2 by lia. now apply H1.
Qed.

Lemma keeps_unchanged (h0 h : Store.Heap) : keeps h0 h -> Store.unchanged h0 h.
Proof.
  intros [_ H] l c Hc. rewrite H; [exact Hc|].
  apply nth_error_Some. congruence.
Qed.

Lemma keeps_alloc (h0 h : Store.Heap) (c : Store.Cell) :
  keeps h0 h -> keeps h0 (h ++ [c])%list.
Proof.
  intros [Hl H]. split; [rewrite length_app; lia|].
  intros l Hlt. rewrite nth_error_app1 by lia. now apply H.
Qed.

Lemma update_length (l : nat) (c : Store.Cell) (h : Store.Heap) :
  List.length (Store.update l c h) = List.length h.
Proof.
  revert l. induction h as [|c' h IH]; intros [|l]; simpl; auto.
Qed.

Lemma update_other (l l' : nat) (c : Store.Cell) (h : Store.Heap) :
  l' <> l -> nth_error (Store.update l c h) l' = nth_error h l'.
Proof.
  revert l l'. induction h as [|c' h IH]; intros [|l] [|l'] Hne; simpl; auto;
    contradiction.
Qed.

Lemma keeps_update (h0 h : Store.Heap) (l : nat) (c : Store.Cell) :
  keeps h0 h -> (List.length h0 <= l)%nat -> keeps h0 (Store.update l c h).
Proof.
  intros [Hl H] Hfresh. split; [rewrite update_length; lia|].
  intros l' Hlt. rewrite update_other by lia. now apply H.
Qed.

Section Triples.
Context (h0 : Store.Heap).

Lemma triple_ret {A : Type} (a : A) (Q : A -> Prop) :
  Q a -> triple h0 (Store.ret a) Q.
Proof. intros Ha w Hk. split; [exact Hk|]. intros a' [= <-]. exact Ha. Qed.

Lemma triple_throw {A : Type} (e : Error) (Q : A -> Prop) :
  triple h0 (Store.throw e) Q.
Proof. intros w Hk. split; [exact Hk | discriminate]. Qed.

Lemma triple_bind {A B : Type} (m : Store.W A) (k : A -> Store.W B)
    (Q : A -> Prop) (R : B -> Prop) :
  triple h0 m Q -> (forall a, Q a -> triple h0 (k a) R) ->
  triple h0 (Store.bind m k) R.
Proof.
  intros Hm Hk w Hw. unfold Store.bind.
  destruct (Hm w Hw) as [Hkeep Hq].
  destruct (m w) as [[a|e] w']; cbn [fst snd] in *.
  - apply (Hk a (Hq a eq_refl) w' Hkeep).
  - split; [exact Hkeep | discriminate].
Qed.

Lemma triple_any {A : Type} (m : Store.W A) (Q : A -> Prop) :
  triple h0 m Q -> triple h0 m (fun _ => True).
Proof. intros Hm w Hw. destruct (Hm w Hw) as [Hk _]. split; [exact Hk | trivial]. Qed.

(** A computation that leaves the heap as it is. *)
Lemma triple_reads {A : Type} (m : Store.W A) :
  (forall w, Store.heap (snd (m w)) = Store.heap w) ->
  triple h0 m (fun _ => True).
Proof. intros Hm w Hw. rewrite Hm. split; [exact Hw | trivial]. Qed.

Lemma triple_get (v : Store.Value) (k : string) :
  triple h0 (Store.get v k) (fun _ => True).
Proof.
  apply triple_reads. intro w. unfold Store.get.
  destruct (Store.read_prop (Store.heap w) v k); reflexivity.
Qed.

Lemma triple_elements (v : Store.Value) :
  triple h0 (Store.elements v) (fun _ => True).
Proof.
  apply triple_reads. intro w. unfold Store.elements.
  destruct (Store.read_elements (Store.heap w) v); reflexivity.
Qed.

Lemma triple_element (v : Store.Value) (i : nat) :
  triple h0 (Store.element v i) (fun _ => True).
Proof.
  eapply triple_bind; [apply triple_elements|]. intros. now apply triple_ret.
Qed.

Lemma triple_effect (e : Store.Effect) :
  triple h0 (Store.effect e) (fun _ => True).
Proof. apply triple_reads. reflexivity. Qed.

Lemma triple_alloc (c : Store.Cell) : triple h0 (Store.alloc c) (fresh h0).
Proof.
  intros w Hw. cbn [Store.alloc fst snd Store.heap]. split.
  - now apply keeps_alloc.
  - intros a [= <-] l [= <-]. apply Hw.
Qed.

Lemma triple_mapM {A B : Type} (f : A -> Store.W B) (l : list A) :
  (forall x, triple h0 (f x) (fun _ => True)) ->
  triple h0 (Store.mapM f l) (fun _ => True).
Proof.
  intro Hf. induction l as [|x l IH]; cbn [Store.mapM].
  - now apply triple_ret.
  - eapply triple_bind; [apply Hf|]. intros y _.
    eapply triple_bind; [apply IH|]. intros ys _. now apply triple_ret.
Qed.

Lemma triple_forEach {A : Type} (f : A -> Store.W unit) (l : list A) :
  (forall x, triple h0 (f x) (fun _ => True)) ->
  triple h0 (Store.forEach l f) (fun _ => True).
Proof.
  intro Hf. induction l as [|x l IH]; cbn [Store.forEach].
  - now apply triple_ret.
  - eapply triple_bind; [apply Hf|]. intros _ _. exact IH.
Qed.

Lemma triple_for_of {A S : Type} (body : S -> A -> Store.W S) (l : list A) (st : S) :
  (forall st x, triple h0 (body st x) (fun _ => True)) ->
  triple h0 (Store.for_of l body st) (fun _ => True).
Proof.
  intro Hb. revert st. induction l as [|x l IH]; intro st; cbn [Store.for_of].
  - now apply triple_ret.
  - eapply triple_bind; [apply Hb|]. intros st' _. apply IH.
Qed.

(** [Object.entries] only allocates, and its array is new. *)
Lemma triple_Object_entries (v : Store.Value) :
  triple h0 (Store.Object_entries v) (fresh h0).
Proof.
  intros w Hw. unfold Store.Object_entries.
  destruct (Store.own_entries (Store.heap w) v) as [es|]; [|split; [exact Hw | discriminate]].
  revert w Hw. change (triple h0
    (Store.bind (Store.mapM (fun e => Store.alloc (Store.Arr [Store.Str (fst e); snd e])) es)
                (fun pairs => Store.alloc (Store.Arr pairs))) (fresh h0)).
  eapply triple_bind.
  - apply triple_mapM. intro x. eapply triple_any. apply triple_alloc.
  - intros pairs _. apply triple_alloc.
Qed.

(** [map] only allocates, besides what its callback does. *)
Lemma triple_Array_map (f : Store.Value -> Store.W Store.Value) (arr : Store.Value) :
  (forall x, triple h0 (f x) (fun _ => True)) ->
  triple h0 (Store.Array_map f arr) (fresh h0).
Proof.
  intro Hf. unfold Store.Array_map.
  eapply triple_bind; [apply triple_elements|]. intros elems _.
  eapply triple_bind; [apply triple_mapM, Hf|]. intros results _.
  apply triple_alloc.
Qed.

(** [sort] writes the array it is called on: the cells of [h0] are safe
    when that array is not one of them. *)
Lemma triple_Array_sort (comparefn : Store.Heap -> Store.Value -> Store.Value -> option Q)
    (arr : Store.Value) :
  fresh h0 arr -> triple h0 (Store.Array_sort comparefn arr) (fresh h0).
Proof.
  intros Hfresh w Hw. unfold Store.Array_sort.
  destruct arr as [| | | | |l]; try (split; [exact Hw | discriminate]).
  destruct (nth_error (Store.heap w) l) as [[props|elems]|];
    try (split; [exact Hw | discriminate]).
  destruct (Store.sort_with (comparefn (Store.heap w)) elems) as [sorted|];
    [|split; [exact Hw | discriminate]].
  cbn [fst snd Store.heap]. split.
  - apply keeps_update; [exact Hw | now apply Hfresh].
  - intros a [= <-]. exact Hfresh.
Qed.

End Triples.

Section Frames.
Context (ToNumber : Store.Heap -> Store.Value -> option Q)
        (greater : Store.Heap -> Store.Value -> Store.Value -> bool)
        (localeCompare : Store.Heap -> string -> Store.Value -> Q)
        (h0 : Store.Heap).

Ltac reads :=
  first [ apply triple_get | apply triple_elements | apply triple_element
        | apply triple_effect | apply triple_throw
        | (apply triple_ret; exact I) ].

Ltac then_reads := eapply triple_bind; [reads | intros ? _].

Lemma triple_has_toLocaleString (v : Store.Value) :
  triple h0 (Store.has_toLocaleString v) (fun _ => True).
Proof. destruct v; reads. Qed.

Lemma triple_has_toFixed (v : Store.Value) :
  triple h0 (Store.has_toFixed v) (fun _ => True).
Proof. destruct v; reads. Qed.

Lemma triple_has_replace (v : Store.Value) :
  triple h0 (Store.has_replace v) (fun _ => True).
Proof. destruct v; reads. Qed.

Lemma triple_gt (x y : Store.Value) :
  triple h0 (Store.gt greater x y) (fun _ => True).
Proof. apply triple_reads. reflexivity. Qed.

Lemma triple_dominant (keep : Store.Value -> Store.Value -> Store.W Store.Value)
    (clasificaciones : Store.Value) :
  (forall nombre datos, triple h0 (keep nombre datos) (fun _ => True)) ->
  triple h0 (Store.dominant greater keep clasificaciones) (fun _ => True).
Proof.
  intro Hkeep. unfold Store.dominant.
  eapply triple_bind; [apply triple_Object_entries | intros entries _].
  then_reads. apply triple_for_of. intros st pair.
  do 3 then_reads.
  eapply triple_bind; [apply triple_gt | intros g _].
  destruct g; [|reads].
  then_reads. eapply triple_bind; [apply Hkeep | intros ? _]. reads.
Qed.

Lemma triple_pointToLayer (feature latlng : Store.Value) :
  triple h0 (Store.pointToLayer greater feature latlng) (fun _ => True).
Proof.
  unfold Store.pointToLayer. do 2 then_reads.
  eapply triple_bind; [apply triple_dominant; intros; reads | intros st _].
  reads.
Qed.

Lemma triple_onEachFeature (feature : Store.Value) :
  triple h0 (Store.onEachFeature greater feature) (fun _ => True).
Proof.
  unfold Store.onEachFeature. do 2 then_reads.
  eapply triple_bind; [apply triple_dominant; intros; reads | intros st _].
  do 2 then_reads.
  eapply triple_bind; [apply triple_has_toLocaleString | intros _ _].
  then_reads.
  eapply triple_bind; [apply triple_has_toLocaleString | intros _ _].
  eapply triple_bind; [apply triple_has_toFixed | intros _ _].
  eapply triple_bind; [apply triple_has_replace | intros _ _].
  then_reads. reads.
Qed.

Lemma triple_crearGraficoEnPopup (canvas : option Canvas)
    (provinciaNombre clasificaciones : Store.Value) :
  triple h0 (Store.crearGraficoEnPopup ToNumber canvas provinciaNombre clasificaciones)
    (fun _ => True).
Proof.
  unfold Store.crearGraficoEnPopup.
  eapply triple_bind; [apply triple_has_replace | intros _ _].
  destruct canvas as [canvas|]; [|reads].
  eapply triple_bind with (Q := fun _ => True).
  { apply triple_reads. intro w. destruct (Store.this_chart w); reflexivity. }
  intros _ _.
  eapply triple_bind; [apply triple_Object_entries | intros entries _].
  eapply triple_bind.
  { apply triple_Array_map. intro pair. do 5 then_reads.
    eapply triple_any. apply triple_alloc. }
  intros mapped Hmapped.
  eapply triple_bind; [apply triple_Array_sort; exact Hmapped | intros datos _].
  eapply triple_bind;
    [eapply triple_any; apply triple_Array_map; intro; reads | intros labels _].
  eapply triple_bind;
    [eapply triple_any; apply triple_Array_map; intro; reads | intros areas _].
  eapply triple_bind;
    [eapply triple_any; apply triple_Array_map; intro; reads | intros colores _].
  apply triple_reads. reflexivity.
Qed.

Lemma triple_popupopen (canvas : option Canvas) (props clasificaciones : Store.Value) :
  triple h0 (Store.popupopen ToNumber canvas props clasificaciones) (fun _ => True).
Proof.
  unfold Store.popupopen. then_reads. apply triple_crearGraficoEnPopup.
Qed.

Lemma triple_crearGraficoMaximos (maximosData : Store.Value) :
  triple h0 (Store.crearGraficoMaximos ToNumber maximosData) (fun _ => True).
Proof.
  unfold Store.crearGraficoMaximos. then_reads.
  eapply triple_bind; [apply triple_Object_entries | intros entries Hentries].
  eapply triple_bind; [apply triple_Array_sort; exact Hentries | intros sorted _].
  then_reads. apply triple_forEach. intro pair.
  do 6 then_reads. reads.
Qed.

Lemma triple_crearLeyenda (this_clasificaciones : Store.Value) :
  triple h0 (Store.crearLeyenda localeCompare this_clasificaciones) (fun _ => True).
Proof.
  unfold Store.crearLeyenda. then_reads.
  destruct (negb (Store.truthy this_clasificaciones)); [reads|].
  eapply triple_bind; [apply triple_Object_entries | intros entries Hentries].
  eapply triple_bind; [apply triple_Array_sort; exact Hentries | intros sorted _].
  then_reads. apply triple_forEach. intro pair.
  do 3 then_reads. reads.
Qed.

Lemma triple_call (c : Store.Call) :
  triple h0 (Store.call ToNumber greater localeCompare c) (fun _ => True).
Proof.
  destruct c; cbn [Store.call].
  - apply triple_pointToLayer.
  - apply triple_onEachFeature.
  - apply triple_popupopen.
  - apply triple_crearGraficoMaximos.
  - apply triple_crearLeyenda.
Qed.

End Frames.

Lemma calls_keep ToNumber greater localeCompare (cs : list Store.Call) (w : Store.World) :
  keeps (Store.heap w) (Store.heap (Store.calls ToNumber greater localeCompare w cs)).
Proof.
  revert w. induction cs as [|c cs IH]; intro w; [apply keeps_refl|].
  cbn [Store.calls fold_left]. eapply keeps_trans; [|apply IH].
  apply (triple_call ToNumber greater localeCompare (Store.heap w) c w), keeps_refl.
Qed.

(** [sort] does write: called on an array that was there before, it
    changes that array.  The dashboard never does so. *)
Lemma sort_writes_its_receiver :
  let w := Store.mkWorld [Store.Arr [Store.Num 1; Store.Num 2]] None [] in
  nth_error
    (Store.heap
       (snd (Store.Array_sort
               (fun h a b => Some (Store.minus sample_ToNumber h b a))
               (Store.Ref 0) w))) 0
  = Some (Store.Arr [Store.Num 2; Store.Num 1]).
Proof. reflexivity. Qed.

(** C8: the three loaded structures are assigned once and never mutated.
    [this.datosProvincias] and [this.clasificaciones] are assigned by
    [cargarDatos] from the primary document and never assigned again,
    whatever popups are opened.  The objects themselves, the maxima mapping
    included: on any heap, in particular the one [JSON.parse] has built,
    and for arguments of any shape, the marker callbacks, the popup timers,
    the maxima panel and the legend, alone or in any sequence, returning or
    throwing, leave every cell that was in the heap exactly as it was; what
    they allocate and what [sort] writes is new. *)
Theorem loaded_structures_never_mutated
    localeCompare net page (evs : list PopupOpen)
    ToNumber greater localeCompare_h (w : Store.World) (cs : list Store.Call) :
  let s0 := new_MapaProvincias localeCompare net page in
  (forall data,
      datos_visualizacion_real net = Fulfils (Some data) ->
      datosProvincias s0 = data_provincias data /\
      clasificaciones s0 = data_clasificaciones data) /\
  same_data s0 (popupopens s0 evs) /\
  (forall c,
      Store.unchanged (Store.heap w)
        (Store.heap (snd (Store.call ToNumber greater localeCompare_h c w)))) /\
  Store.unchanged (Store.heap w)
    (Store.heap (Store.calls ToNumber greater localeCompare_h w cs)) /\
  (forall l c,
      nth_error (Store.heap w) l = Some c ->
      nth_error (Store.heap (Store.calls ToNumber greater localeCompare_h w cs)) l
      = Some c).
Proof.
  intro s0. subst s0.
  destruct (this_fields_never_reassigned localeCompare net page evs)
    as (Hassigned & _ & Hsame & _).
  split; [exact Hassigned|]. split; [exact Hsame|].
  split; [|split].
  - intro c. apply keeps_unchanged.
    apply (triple_call ToNumber greater localeCompare_h (Store.heap w) c w), keeps_refl.
  - apply keeps_unchanged, calls_keep.
  - apply (keeps_unchanged _ _ (calls_keep ToNumber greater localeCompare_h cs w)).
Qed.

(** On the sample maxima document: the panel is drawn, Bosque first, the
    legend method throws on records without [nombre], a popup timer throws
    on properties without [provincia], and the three loaded cells are as
    they were. *)
Lemma loaded_structures_never_mutated_witness :
  let w := Store.mkWorld sample_heap None [] in
  let w' := Store.calls sample_ToNumber sample_greater sample_localeCompare w
              [Store.CallCrearGraficoMaximos (Store.Ref 2);
               Store.CallCrearLeyenda (Store.Ref 2);
               Store.CallPopupOpen (Some "chart-Misiones") (Store.Ref 2) (Store.Ref 2)] in
  firstn 3 (Store.heap w') = sample_heap /\
  List.length (Store.heap w') = 9%nat /\
  nth_error (Store.heap w') 2
  = Some (Store.Obj [("Agua", Store.Ref 0); ("Bosque", Store.Ref 1)]) /\
  Store.effects w'
  = [Store.ClearMaximos;
     Store.AppendMaximo (Store.Str "#397d49") (Store.Str "#397d49")
       (Store.Str "Bosque") (Store.Str "Misiones") (Store.Num 80);
     Store.AppendMaximo (Store.Str "#419bdf") (Store.Str "#419bdf")
       (Store.Str "Agua") (Store.Str "Tierra del Fuego") (Store.Num 25);
     Store.ClearLegend].
Proof.
  intros w w'.
  split; [reflexivity|]. split; [reflexivity|]. split; [|reflexivity].
  apply (loaded_structures_never_mutated ordinalCompare red_ejemplo blank_page []
           sample_ToNumber sample_greater sample_localeCompare w
           [Store.CallCrearGraficoMaximos (Store.Ref 2);
            Store.CallCrearLeyenda (Store.Ref 2);
            Store.CallPopupOpen (Some "chart-Misiones") (Store.Ref 2) (Store.Ref 2)]).
  reflexivity.
Defined.

(** ** The two embeddings of the maxima panel agree *)

Lemma insert_map {A B : Type} (f : A -> B) (c : B -> B -> Q) (x : A) (l : list A) :
  Js.insert c (f x) (List.map f l)
  = List.map f (Js.insert (fun a b => c (f a) (f b)) x l).
Proof.
  induction l as [|y l IH]; [reflexivity|]. simpl.
  destruct (Js.gt (c (f x) (f y)) 0); simpl; [now rewrite IH | reflexivity].
Qed.

Lemma sort_map {A B : Type} (f : A -> B) (c : B -> B -> Q) (l : list A) :
  Js.sort c (List.map f l) = List.map f (Js.sort (fun a b => c (f a) (f b)) l).
Proof.
  induction l as [|x l IH]; [reflexivity|]. simpl. now rewrite IH, insert_map.
Qed.

Lemma insert_with_Some (cmpo : Store.Value -> Store.Value -> option Q)
    (c : Store.Value -> Store.Value -> Q) (x : Store.Value) (l : list Store.Value) :
  (forall y, In y l -> cmpo x y = Some (c x y)) ->
  Store.insert_with cmpo x l = Some (Js.insert c x l).
Proof.
  induction l as [|y l IH]; intro H; [reflexivity|]. simpl.
  rewrite (H y) by now left.
  destruct (Js.gt (c x y) 0); [|reflexivity].
  rewrite IH; [reflexivity|]. intros z Hz. apply H. now right.
Qed.

Lemma sort_with_Some (cmpo : Store.Value -> Store.Value -> option Q)
    (c : Store.Value -> Store.Value -> Q) (l : list Store.Value) :
  (forall x y, In x l -> In y l -> cmpo x y = Some (c x y)) ->
  Store.sort_with cmpo l = Some (Js.sort c l).
Proof.
  induction l as [|x l IH]; intro H; [reflexivity|]. simpl.
  rewrite IH by (intros; apply H; now right).
  apply insert_with_Some. intros y Hy. apply H; [now left|]. right.
  eapply Permutation_in; [apply sort_perm | exact Hy].
Qed.

Lemma mapM_alloc {A : Type} (f : A -> Store.Cell) (l : list A) (w : Store.World) :
  Store.mapM (fun x => Store.alloc (f x)) l w
  = (Returned (List.map Store.Ref (seq (List.length (Store.heap w)) (List.length l))),
     Store.mkWorld (Store.heap w ++ List.map f l)%list (Store.this_chart w)
       (Store.effects w)).
Proof.
  revert w. induction l as [|x l IH]; intro w; destruct w as [h ch ef].
  - cbn. now rewrite app_nil_r.
  - cbn [Store.mapM]. unfold Store.bind at 1. cbn [Store.alloc Store.heap
      Store.this_chart Store.effects].
    unfold Store.bind at 1. rewrite IH.
    cbn [Store.heap Store.this_chart Store.effects Store.ret List.length seq List.map].
    rewrite length_app, <- app_assoc. cbn [List.length app].
    now rewrite Nat.add_1_r.
Qed.

Lemma sort_pointwise {A : Type} (c c' : A -> A -> Q) (l : list A) :
  (forall a b, c a b = c' a b) -> Js.sort c l = Js.sort c' l.
Proof.
  intro H. induction l as [|x l IH]; [reflexivity|]. simpl. rewrite IH.
  generalize (Js.sort c' l). intro s. induction s as [|y s IHs]; [reflexivity|].
  simpl. now rewrite H, IHs.
Qed.

Lemma map_nth_seq {A : Type} (d : A) (l : list A) :
  List.map (fun i => nth i l d) (seq 0 (List.length l)) = l.
Proof.
  induction l as [|x l IH]; [reflexivity|].
  cbn [List.length seq List.map nth]. f_equal.
  rewrite <- seq_shift, map_map. exact IH.
Qed.

Lemma seq_add (a n : nat) : seq a n = List.map (fun i => (a + i)%nat) (seq 0 n).
Proof.
  revert a. induction n as [|n IH]; intro a; [reflexivity|].
  cbn [seq List.map]. rewrite Nat.add_0_r. f_equal.
  rewrite (IH (S a)), <- seq_shift, map_map.
  apply map_ext. intro i. lia.
Qed.

Lemma bind_returned {A B : Type} (m : Store.W A) (k : A -> Store.W B)
    (w w' : Store.World) (a : A) :
  m w = (Returned a, w') -> Store.bind m k w = k a w'.
Proof. intro H. unfold Store.bind. now rewrite H. Qed.

Lemma element_read (w : Store.World) (l i : nat) (elems : list Store.Value) :
  nth_error (Store.heap w) l = Some (Store.Arr elems) ->
  Store.element (Store.Ref l) i w = (Returned (nth i elems Store.Undefined), w).
Proof.
  intro H. unfold Store.element, Store.bind, Store.elements, Store.read_elements.
  now rewrite H.
Qed.

Lemma get_read (w : Store.World) (l : nat) (k : string)
    (props : list (string * Store.Value)) :
  nth_error (Store.heap w) l = Some (Store.Obj props) ->
  Store.get (Store.Ref l) k w = (Returned (Store.lookup props k), w).
Proof.
  intro H. unfold Store.get, Store.read_prop. now rewrite H.
Qed.

Section MaximosAgree.
Context (ToNumber : Store.Heap -> Store.Value -> option Q)
        (HToNumber : forall h q, ToNumber h (Store.Num q) = Some q)
        (m : MaximosData).

Let n := List.length m.
Let d : string * Maximo := ("", mkMaximo "" 0 "").
Let P (i : nat) : Q := max_porcentaje (snd (nth i m d)).
Let pair_ref (i : nat) : Store.Value := Store.Ref (n + 1 + i).

(** The comparator of [crearGraficoMaximos], on heap [h]. *)
Let comparefn (h : Store.Heap) (e1 e2 : Store.Value) : option Q :=
  match Store.second_of h e1 e2 with
  | Some (a, b) =>
      match Store.read_prop h b "porcentaje", Store.read_prop h a "porcentaje" with
      | Some x, Some y => Some (Store.minus ToNumber h x y)
      | _, _ => None
      end
  | None => None
  end.

Lemma nth_error_nth_lt (i : nat) : (i < n)%nat -> nth_error m i = Some (nth i m d).
Proof. intro Hi. now apply nth_error_nth'. Qed.

Lemma comparefn_pairs (h : Store.Heap) (i j : nat) :
  laid_out m h -> (i < n)%nat -> (j < n)%nat ->
  comparefn h (pair_ref i) (pair_ref j) = Some (P j - P i).
Proof.
  intros Hlay Hi Hj.
  destruct (Hlay i _ (nth_error_nth_lt i Hi)) as [Hri Hpi].
  destruct (Hlay j _ (nth_error_nth_lt j Hj)) as [Hrj Hpj].
  unfold comparefn, Store.second_of, Store.read_element, Store.read_elements, pair_ref.
  fold n in Hpi, Hpj. rewrite Hpi, Hpj. cbn [option_map nth].
  unfold Store.read_prop. rewrite Hri, Hrj.
  cbn. unfold Store.minus. now rewrite !HToNumber.
Qed.

Lemma sort_pairs (h : Store.Heap) :
  laid_out m h ->
  Store.sort_with (comparefn h) (List.map pair_ref (seq 0 n))
  = Some (List.map pair_ref (Js.sort (fun i j => P j - P i) (seq 0 n))).
Proof.
  intro Hlay.
  pose (c := fun x y : Store.Value =>
               match x, y with
               | Store.Ref a, Store.Ref b => P (b - (n + 1)) - P (a - (n + 1))
               | _, _ => 0
               end).
  rewrite (sort_with_Some _ c).
  - f_equal. rewrite sort_map. f_equal. apply sort_pointwise.
    intros a b. unfold c, pair_ref.
    replace (n + 1 + b - (n + 1))%nat with b by lia.
    replace (n + 1 + a - (n + 1))%nat with a by lia. reflexivity.
  - intros x y Hx Hy. apply in_map_iff in Hx, Hy.
    destruct Hx as (i & <- & Hi), Hy as (j & <- & Hj).
    apply in_seq in Hi, Hj.
    rewrite comparefn_pairs by (assumption || lia).
    unfold c, pair_ref.
    replace (n + 1 + j - (n + 1))%nat with j by lia.
    replace (n + 1 + i - (n + 1))%nat with i by lia. reflexivity.
Qed.

Lemma sorted_entries :
  sortedMaximos m
  = List.map (fun i => nth i m d) (Js.sort (fun i j => P j - P i) (seq 0 n)).
Proof.
  unfold sortedMaximos, Js.entries.
  rewrite <- (map_nth_seq d m) at 1. fold n. now rewrite sort_map.
Qed.

(** The callback of [forEach] in [crearGraficoMaximos]. *)
Let append_row (pair : Store.Value) : Store.W unit :=
  Store.bind (Store.element pair 0) (fun clase =>
  Store.bind (Store.element pair 1) (fun datos =>
  Store.bind (Store.get datos "color") (fun borderLeftColor =>
  Store.bind (Store.get datos "color") (fun color =>
  Store.bind (Store.get datos "provincia") (fun provincia =>
  Store.bind (Store.get datos "porcentaje") (fun porcentaje =>
  Store.effect
    (Store.AppendMaximo borderLeftColor color clase provincia porcentaje))))))).

Lemma append_row_pair (h : Store.Heap) (ch : option nat) (ef : list Store.Effect)
    (i : nat) :
  laid_out m h -> (i < n)%nat ->
  append_row (pair_ref i) (Store.mkWorld h ch ef)
  = (Returned tt, Store.mkWorld h ch (ef ++ [maximo_effect (nth i m d)])).
Proof.
  intros Hlay Hi.
  destruct (Hlay i _ (nth_error_nth_lt i Hi)) as [Hri Hpi]. fold n in Hpi.
  unfold append_row, pair_ref.
  erewrite bind_returned by (apply element_read; exact Hpi).
  erewrite bind_returned by (apply element_read; exact Hpi).
  cbn [nth].
  do 4 (erewrite bind_returned by (apply get_read; exact Hri)).
  reflexivity.
Qed.

Lemma forEach_pairs (h : Store.Heap) (ch : option nat) (idxs : list nat)
    (ef : list Store.Effect) :
  laid_out m h -> (forall i, In i idxs -> (i < n)%nat) ->
  Store.forEach (List.map pair_ref idxs) append_row (Store.mkWorld h ch ef)
  = (Returned tt,
     Store.mkWorld h ch
       (ef ++ List.map (fun i => maximo_effect (nth i m d)) idxs)).
Proof.
  intros Hlay. revert ef. induction idxs as [|i idxs IH]; intros ef Hidx.
  - cbn. now rewrite app_nil_r.
  - cbn [List.map Store.forEach].
    rewrite (bind_returned _ _ _ _ _
               (append_row_pair h ch ef i Hlay (Hidx i (or_introl eq_refl)))).
    rewrite IH by (intros; apply Hidx; now right).
    now rewrite <- app_assoc.
Qed.

Let props : list (string * Store.Value) :=
  List.map (fun p => (fst (snd p), Store.Ref (fst p))) (combine (seq 0 n) m).

Let pairs : list Store.Cell :=
  List.map (fun e => Store.Arr [Store.Str (fst e); snd e]) props.

Lemma props_nth (i : nat) (e : string * Maximo) :
  nth_error m i = Some e -> nth_error props i = Some (fst e, Store.Ref i).
Proof.
  intro He. unfold props. rewrite nth_error_map.
  assert (Hi : (i < n)%nat) by (apply nth_error_Some; congruence).
  assert (Hc : nth_error (combine (seq 0 n) m) i = Some (i, e)).
  { rewrite (nth_error_nth' _ (0%nat, d)) by (rewrite length_combine, length_seq; fold n; lia).
    rewrite combine_nth by (rewrite length_seq; reflexivity).
    rewrite seq_nth by exact Hi.
    f_equal. f_equal. apply nth_error_nth with (d := d) in He. exact He. }
  now rewrite Hc.
Qed.

Lemma props_length : List.length props = n.
Proof.
  unfold props. rewrite length_map, length_combine, length_seq. fold n. lia.
Qed.

Lemma parsed_length : List.length (parsed_maximos m) = (n + 1)%nat.
Proof.
  unfold parsed_maximos. rewrite length_app, length_map. reflexivity.
Qed.

Lemma parsed_root : nth_error (parsed_maximos m) n = Some (Store.Obj props).
Proof.
  unfold parsed_maximos. rewrite nth_error_app2 by (rewrite length_map; fold n; lia).
  rewrite length_map. fold n. now rewrite Nat.sub_diag.
Qed.

Lemma parsed_record (i : nat) (e : string * Maximo) :
  nth_error m i = Some e ->
  nth_error (parsed_maximos m) i = Some (parsed_maximo (snd e)).
Proof.
  intro He. unfold parsed_maximos.
  rewrite nth_error_app1
    by (rewrite length_map; apply nth_error_Some; congruence).
  now rewrite nth_error_map, He.
Qed.

(** The heap once [Object.entries] has run on the parsed document. *)
Let with_entries : Store.Heap :=
  ((parsed_maximos m ++ pairs) ++ [Store.Arr (List.map pair_ref (seq 0 n))])%list.

Lemma Object_entries_parsed (ch : option nat) (ef : list Store.Effect) :
  Store.Object_entries (Store.Ref n) (Store.mkWorld (parsed_maximos m) ch ef)
  = (Returned (Store.Ref (n + 1 + n)), Store.mkWorld with_entries ch ef).
Proof.
  unfold Store.Object_entries, Store.own_entries. cbn [Store.heap].
  rewrite parsed_root.
  erewrite bind_returned by apply mapM_alloc.
  unfold Store.alloc. cbn [Store.heap Store.this_chart Store.effects].
  rewrite length_app, length_map, props_length, parsed_length.
  unfold with_entries, pairs. do 4 f_equal.
  rewrite (seq_add (n + 1) n), map_map. reflexivity.
Qed.

Lemma with_entries_laid_out : laid_out m with_entries.
Proof.
  intros i e He.
  assert (Hi : (i < n)%nat) by (apply nth_error_Some; congruence).
  unfold with_entries. split.
  - rewrite nth_error_app1 by (rewrite length_app, parsed_length; lia).
    rewrite nth_error_app1 by (rewrite parsed_length; lia).
    now apply parsed_record.
  - fold n. rewrite nth_error_app1
      by (rewrite length_app, parsed_length; unfold pairs;
          rewrite length_map, props_length; lia).
    rewrite nth_error_app2 by (rewrite parsed_length; lia).
    rewrite parsed_length.
    replace (n + 1 + i - (n + 1))%nat with i by lia.
    unfold pairs. now rewrite nth_error_map, (props_nth i e He).
Qed.

Lemma with_entries_array :
  nth_error with_entries (n + 1 + n)
  = Some (Store.Arr (List.map pair_ref (seq 0 n))).
Proof.
  unfold with_entries.
  rewrite nth_error_app2
    by (rewrite length_app, parsed_length; unfold pairs;
        rewrite length_map, props_length; lia).
  rewrite length_app, parsed_length. unfold pairs.
  rewrite length_map, props_length. now rewrite Nat.sub_diag.
Qed.

Lemma update_same (l : nat) (c : Store.Cell) (h : Store.Heap) :
  (l < List.length h)%nat -> nth_error (Store.update l c h) l = Some c.
Proof.
  revert l. induction h as [|c' h IH]; intros [|l] Hl; simpl in *; try lia.
  - reflexivity.
  - apply IH. lia.
Qed.

Lemma update_laid_out (h : Store.Heap) (c : Store.Cell) :
  laid_out m h -> laid_out m (Store.update (n + 1 + n) c h).
Proof.
  intros Hlay i e He.
  assert (Hi : (i < n)%nat) by (apply nth_error_Some; congruence).
  destruct (Hlay i e He) as [H1 H2]. fold n in H2. fold n.
  rewrite !update_other by lia. split; assumption.
Qed.

(** On the heap of a parsed maxima document, the heap-level
    [crearGraficoMaximos] returns normally and asks for the rows that
    [crearGraficoMaximos] on values draws, in the same order. *)
Lemma crearGraficoMaximos_agrees (ch : option nat) (ef : list Store.Effect) :
  let w := Store.mkWorld (parsed_maximos m) ch ef in
  fst (Store.crearGraficoMaximos ToNumber (Store.Ref n) w) = Returned tt /\
  Store.effects (snd (Store.crearGraficoMaximos ToNumber (Store.Ref n) w))
  = (ef ++ Store.ClearMaximos :: List.map maximo_effect (sortedMaximos m))%list.
Proof.
  intro w. subst w. unfold Store.crearGraficoMaximos.
  erewrite bind_returned by reflexivity.
  cbn [Store.heap Store.this_chart Store.effects].
  erewrite bind_returned by apply Object_entries_parsed.
  assert (Hsort :
    Store.Array_sort comparefn (Store.Ref (n + 1 + n))
      (Store.mkWorld with_entries ch (ef ++ [Store.ClearMaximos]))
    = (Returned (Store.Ref (n + 1 + n)),
       Store.mkWorld
         (Store.update (n + 1 + n)
            (Store.Arr (List.map pair_ref (Js.sort (fun i j => P j - P i) (seq 0 n))))
            with_entries)
         ch (ef ++ [Store.ClearMaximos]))).
  { unfold Store.Array_sort. cbn [Store.heap Store.this_chart Store.effects].
    rewrite with_entries_array, (sort_pairs with_entries with_entries_laid_out).
    reflexivity. }
  erewrite bind_returned by exact Hsort.
  assert (Hlen : (n + 1 + n < List.length with_entries)%nat).
  { apply nth_error_Some. rewrite with_entries_array. discriminate. }
  erewrite bind_returned.
  2:{ unfold Store.elements, Store.read_elements. cbn [Store.heap].
      rewrite (update_same _ _ _ Hlen). reflexivity. }
  change (Store.forEach _ _) with
    (Store.forEach
       (List.map pair_ref (Js.sort (fun i j => P j - P i) (seq 0 n))) append_row).
  rewrite forEach_pairs.
  - cbn [fst snd Store.effects]. split; [reflexivity|].
    rewrite <- app_assoc. cbn [app]. do 2 f_equal.
    now rewrite sorted_entries, map_map.
  - apply update_laid_out, with_entries_laid_out.
  - intros i Hin. eapply Permutation_in in Hin; [|apply sort_perm].
    apply in_seq in Hin. lia.
Qed.

End MaximosAgree.
